(** * MarkovChainBot: the mention parser, the command dispatcher, the
      ingestion filter and the generation pipeline of the Slack bot.

    The development embeds the class [Bot] of the command-supporting variant
    (the file that requires [../config/default]) and, in [BasicBot], the older
    variant of [src/Bot/index.js].

    Conventions of the embedding.
    - A JS string is a [string]; its characters stand for UTF-16 code units
      below 256.
    - A JS number is modelled where the bot uses one: an integer-valued
      number is the integer it denotes, and 2^1024, which no double equals,
      stands for Infinity (its opposite for -Infinity). [parseInt] yields
      [None] for NaN and otherwise the double nearest to the integer it reads
      ([nearest_double]).
    - Calls to the collaborators (the RTM client, the Message collection, the
      Markov chain generator) are recorded as a trace of [event]s; the closures
      handed to the store are kept as data ([callback]) and run by
      [run_callback] when the store answers. *)

From Stdlib Require Import ZArith Lia Ascii String.
From stdpp Require Import base strings list gmap fin_maps.

Open Scope string_scope.
Open Scope Z_scope.

(** ** JavaScript values and strings *)

Abbreviation loc := positive.

Inductive value :=
| VUndefined
| VNull
| VBool (b : bool)
| VNum (z : Z)
| VStr (s : string)
| VRef (l : loc).

Abbreviation object := (gmap string value).

(** ToBoolean. *)
Definition truthy (v : value) : bool :=
  match v with
  | VUndefined | VNull => false
  | VBool b => b
  | VNum z => negb (z =? 0)
  | VStr s => negb (String.eqb s "")
  | VRef _ => true
  end.

(** [o.f]: a missing property reads as [undefined]. *)
Definition get (o : object) (f : string) : value := default VUndefined (o !! f).

Definition code (c : ascii) : N := N_of_ascii c.

(** [s.split(' ')]: never empty, consecutive spaces give empty tokens. *)
Fixpoint split (s : string) : list string :=
  match s with
  | EmptyString => [""]
  | String c s' =>
      if (code c =? 32)%N then "" :: split s'
      else match split s' with
           | t :: ts => String c t :: ts
           | [] => [String c ""]
           end
  end.

(** [arr.join(sep)]. *)
Fixpoint join (sep : string) (l : list string) : string :=
  match l with
  | [] => ""
  | [s] => s
  | s :: rest => s +:+ sep +:+ join sep rest
  end.

(** [s.indexOf(p) == 0]. *)
Fixpoint starts_with (p s : string) : bool :=
  match p, s with
  | EmptyString, _ => true
  | String a p', String b s' => Ascii.eqb a b && starts_with p' s'
  | String _ _, EmptyString => false
  end.

Definition is_alnum (c : ascii) : bool :=
  let n := code c in
  ((48 <=? n) && (n <=? 57) || (65 <=? n) && (n <=? 90) || (97 <=? n) && (n <=? 122))%N.

(** [s.replace(/[^0-9a-z]/gi, '')]. *)
Fixpoint strip_non_alnum (s : string) : string :=
  match s with
  | EmptyString => EmptyString
  | String c s' => if is_alnum c then String c (strip_non_alnum s') else strip_non_alnum s'
  end.

(** *** parseInt (no radix argument) *)

(** WhiteSpace and LineTerminator code units below 256. *)
Definition is_StrWhiteSpaceChar (c : ascii) : bool :=
  let n := code c in
  ((9 <=? n) && (n <=? 13) || (n =? 32) || (n =? 160))%N.

Fixpoint trim_left (s : string) : string :=
  match s with
  | String c s' => if is_StrWhiteSpaceChar c then trim_left s' else s
  | EmptyString => EmptyString
  end.

Definition digit_value (c : ascii) : option Z :=
  let n := code c in
  if ((48 <=? n) && (n <=? 57))%N then Some (Z.of_N n - 48)
  else if ((97 <=? n) && (n <=? 122))%N then Some (Z.of_N n - 87)
  else if ((65 <=? n) && (n <=? 90))%N then Some (Z.of_N n - 55)
  else None.

(** The digits of the longest prefix of [s] made of radix-[R] digits. *)
Fixpoint radix_prefix (R : Z) (s : string) : list Z :=
  match s with
  | EmptyString => []
  | String c s' =>
      match digit_value c with
      | Some d => if d <? R then d :: radix_prefix R s' else []
      | None => []
      end
  end.

Definition mathInt (R : Z) (ds : list Z) : Z :=
  fold_left (fun acc d => acc * R + d) ds 0.

(** The number Infinity. *)
Definition Infinity : Z := 2 ^ 1024.

(** The Number value of a non-negative integer: the nearest double, ties to
    the even mantissa, and Infinity once that reaches 2^1024. Below 2^53 every
    integer is a double. (V8 rounds the digits it reads exactly; ECMAScript
    lets an implementation approximate a decimal numeral beyond its 20th
    significant digit.) *)
Definition nearest_double (n : Z) : Z :=
  if n <? 2 ^ 53 then n
  else
    let e := Z.log2 n - 52 in
    let q := n / 2 ^ e in
    let r := n mod 2 ^ e in
    let q' := if (2 ^ e <? 2 * r) || ((2 * r =? 2 ^ e) && Z.odd q) then q + 1 else q in
    if 2 ^ 1024 <=? q' * 2 ^ e then Infinity else q' * 2 ^ e.

(** ToString of an array element that may be missing. *)
Definition ToString (x : option string) : string :=
  match x with
  | Some s => s
  | None => "undefined"
  end.

Definition strip_sign (s : string) : Z * string :=
  match s with
  | String c r =>
      if Ascii.eqb c "-" then (-1, r)
      else if Ascii.eqb c "+" then (1, r)
      else (1, s)
  | EmptyString => (1, s)
  end.

Definition strip_hex_prefix (s : string) : Z * string :=
  match s with
  | String c (String x r) =>
      if Ascii.eqb c "0" && (Ascii.eqb x "x" || Ascii.eqb x "X") then (16, r)
      else (10, s)
  | _ => (10, s)
  end.

Definition parseInt (x : option string) : option Z :=
  let '(sign, s1) := strip_sign (trim_left (ToString x)) in
  let '(R, s2) := strip_hex_prefix s1 in
  match radix_prefix R s2 with
  | [] => None
  | ds => Some (sign * nearest_double (mathInt R ds))
  end.

(** [parseInt(x) || d]: NaN and 0 are falsy. *)
Definition parseInt_or (x : option string) (d : value) : value :=
  match parseInt x with
  | Some z => if z =? 0 then d else VNum z
  | None => d
  end.

(** ** The data model *)

(** A message event of the RTM client that has a text ([Event] below is the
    general case). [msg_ts] is the epoch-seconds timestamp as an integer
    number. *)
Record Message := {
  msg_type : string;
  msg_subtype : option string;
  msg_channel : string;
  msg_user : string;
  msg_text : string;
  msg_ts : Z;
  msg_team : string
}.

(** A JS Date: a time value in milliseconds, or an invalid date. *)
Inductive Date :=
| InvalidDate
| Time (ms : Z).

(** [new Date(tv)] with TimeClip. *)
Definition new_Date (tv : Z) : Date :=
  if Z.abs tv <=? 8640000000000000 then Time tv else InvalidDate.

(** A document of the collection [Message]:
    [{type, channel, user, text, ts: Date, team}]. *)
Record Document := {
  doc_type : string;
  doc_channel : string;
  doc_user : string;
  doc_text : string;
  doc_ts : Date;
  doc_team : string
}.

(** The object built by [getMsgTag] and consumed by [generate]. *)
Record Request := {
  user : string;
  channel : string;
  limit : value
}.

(** What [getMsgTag] returns: an object, [null] or [false]. *)
Inductive tag :=
| Params (p : Request)
| Null
| False_.

(** The closures the bot hands to the store. *)
Inductive callback :=
| generate_then (params : Request)
| save_callback
| purge_then (msg : Message).

(** The calls the bot makes on its collaborators. *)
Inductive event :=
| sendMessage (text : value) (chan : string)
| Message_find (usr : string) (lim : value) (k : callback)
| Message_remove (usr : string) (k : callback)
| Message_save (doc : Document) (k : callback)
| MarkovChain_generate (seed : string) (lim : value).

(** What is thrown: [new Error(x)], the TypeError of calling or reading
    through [undefined], or the error of mongoose for a model name that is
    compiled a second time. *)
Inductive error :=
| Error (x : value)
| TypeError
| OverwriteModelError (name : string).

(** What the store passes to a closure: the messages found, nothing after a
    removal, and to the closure of [save] its argument [err], [null] after a
    successful insert. A rejected promise reaches no closure of the bot:
    [generate] and [_purge] give [then] one argument. *)
Inductive reply :=
| Found (messages : list Document)
| Removed
| Saved (err : value)
| Rejected (reason : value).

(** ** Computations: a trace of calls and a result or a thrown error *)

Definition M (A : Type) : Type := list event * (error + A).

#[global] Instance M_ret : MRet M := fun A a => ([], inr a).
#[global] Instance M_bind : MBind M := fun A B f m =>
  match m with
  | (t, inl e) => (t, inl e)
  | (t, inr a) => let '(t', r) := f a in ((t ++ t')%list, r)
  end.

Definition call (e : event) : M unit := ([e], inr tt).
Definition throw {A} (e : error) : M A := ([], inl e).

Definition trace {A} (m : M A) : list event := fst m.
Definition result {A} (m : M A) : error + A := snd m.

(** ** The command table *)

Record CommandEntry := {
  method : string;
  description : string
}.

(** [_setCommands] *)
Definition _commands : list (string * CommandEntry) :=
  [ ("purge", {| method := "_purge";
                 description := "Purges all of a user's messages from the database" |});
    ("help", {| method := "_help";
                description := "Displays the help message" |}) ].

(** [_commands] is an object literal: a key it does not own is looked up on
    [Object.prototype], whose properties are all truthy and have neither a
    [method] nor a [description]. *)
Definition Object_prototype_keys : list string :=
  [ "constructor"; "__defineGetter__"; "__defineSetter__"; "hasOwnProperty";
    "__lookupGetter__"; "__lookupSetter__"; "isPrototypeOf";
    "propertyIsEnumerable"; "toString"; "valueOf"; "__proto__";
    "toLocaleString" ].

Inductive property :=
| Own (c : CommandEntry)
| Inherited
| Absent.

Fixpoint assoc {A} (k : string) (l : list (string * A)) : option A :=
  match l with
  | [] => None
  | (k', a) :: l' => if String.eqb k k' then Some a else assoc k l'
  end.

(** [~arr.indexOf(x)]: [x] is an element of [arr]. *)
Definition includes (x : string) (arr : list string) : bool :=
  existsb (String.eqb x) arr.

(** [this._commands[k]] *)
Definition commands_get (k : string) : property :=
  match assoc k _commands with
  | Some c => Own c
  | None => if includes k Object_prototype_keys then Inherited else Absent
  end.

(** What [_parseCommand] returns when it is not [false]. *)
Record Command := {
  cmd_method : value;
  cmd_description : value;
  args : list string
}.

Definition property_method (p : property) : value :=
  match p with Own c => VStr (method c) | _ => VUndefined end.
Definition property_description (p : property) : value :=
  match p with Own c => VStr (description c) | _ => VUndefined end.

(** ** The bot *)

(** [config] is the content of the object [this.config] points to, [id] and
    [name] are [undefined] until the client has authenticated. *)
Record Bot := {
  config : object;
  name : option string;
  id : option string
}.

(** The handler of [AUTHENTICATED]. *)
Definition on_authenticated (self_name self_id : string) (bot : Bot) : Bot :=
  {| config := config bot; name := Some self_name; id := Some self_id |}.

(** The template literal [`<@${this.id}>`]. *)
Definition mention (bot : Bot) : string := "<@" +:+ ToString (id bot) +:+ ">".

Definition denial : string := "I'm sorry, Dave. I'm afraid I can't do that".

(** [arr[i]] is truthy: present and not the empty string. *)
Definition tok_truthy (t : option string) : bool :=
  match t with Some s => negb (String.eqb s "") | None => false end.

(** [arr[i] == s] for a string [s]. *)
Definition tok_eq (t : option string) (s : string) : bool :=
  match t with Some s' => String.eqb s' s | None => false end.

Section Methods.

(** The answer of [new MarkovChain(seed, null, limit).generate()], or the
    error it throws. *)
Variable markov : string -> value -> error + string.

(** [this] *)
Variable bot : Bot.

Definition deny (chan : string) : M unit :=
  call (sendMessage (VStr denial) chan).

Definition postChain (chain usr chan : string) : M unit :=
  let msg := "<@" +:+ usr +:+ "> says: " +:+ chain in
  call (sendMessage (VStr msg) chan).

Definition generateChain (seed : string) : M string :=
  let lim := get (config bot) "limit" in
  call (MarkovChain_generate seed lim) ;;
  match markov seed lim with
  | inl e => throw e
  | inr chain => mret chain
  end.

Definition _isCalled (msg : Message) : option (list string) :=
  let msgArr := split (msg_text msg) in
  if negb (length msgArr =? 0)%nat
     && tok_truthy (msgArr !! 1%nat)
     && tok_eq (msgArr !! 0%nat) (mention bot)
  then Some msgArr
  else None.

Definition getMsgTag (msg : Message) : M tag :=
  let msgArray := split (msg_text msg) in
  match _isCalled msg with
  | Some _ =>
      if tok_eq (msgArray !! 1%nat) "me" then
        mret (Params {| user := msg_user msg;
                        channel := msg_channel msg;
                        limit := parseInt_or (msgArray !! 2%nat) (get (config bot) "limit") |})
      else if starts_with "<@" (ToString (msgArray !! 1%nat)) then
        if tok_eq (msgArray !! 1%nat) (mention bot) then
          deny (msg_channel msg) ;; mret Null
        else
          mret (Params {| user := strip_non_alnum (ToString (msgArray !! 1%nat));
                          channel := msg_channel msg;
                          limit := parseInt_or (msgArray !! 2%nat) (get (config bot) "limit") |})
      else mret False_
  | None => mret False_
  end.

Definition _parseCommand (msg : Message) : option Command :=
  match _isCalled msg with
  | Some msgArr =>
      if tok_truthy (msgArr !! 0%nat) then
        let msgArr1 := tail msgArr in
        let command := commands_get (ToString (msgArr1 !! 0%nat)) in
        match command with
        | Absent => None
        | _ => Some {| cmd_method := property_method command;
                       cmd_description := property_description command;
                       args := tail msgArr1 |}
        end
      else None
  | None => None
  end.

(** The body of the closure of [_purge]. *)
Definition _purge_then (msg : Message) : M value :=
  call (sendMessage (VStr ("<@" +:+ msg_user msg +:+ "> Your messages have been purged!"))
                    (msg_channel msg)) ;;
  mret VUndefined.

Definition _purge (msg : Message) : M unit :=
  call (Message_remove (msg_user msg) (purge_then msg)).

Definition CR : string := String (ascii_of_nat 13) "".

Definition _help (msg : Message) : M unit :=
  let text :=
    ("Here is a list of the commands I know: " +:+ CR)
      :: map (fun '(name, c) => "`" +:+ name +:+ "`: " +:+ description c) _commands in
  call (sendMessage (VStr (join CR text)) (msg_channel msg)).

(** [this[methodName](msg, args)] for the members the command table can
    name; [this[undefined]] is not a function. *)
Definition invoke (methodName : value) (msg : Message) (args : list string) : M unit :=
  match methodName with
  | VStr m =>
      if String.eqb m "_purge" then _purge msg
      else if String.eqb m "_help" then _help msg
      else throw TypeError
  | _ => throw TypeError
  end.

Definition _exec (methodName : value) (msg : Message) (args : list string) : M unit :=
  if includes "-h" args || includes "--help" args then
    let prop := split (msg_text msg) !! 1%nat in
    match commands_get (ToString prop) with
    | Absent => throw TypeError
    | p => call (sendMessage (property_description p) (msg_channel msg))
    end
  else invoke methodName msg args.

Definition _warrantsSave (msg : Message) : bool :=
  match msg_subtype msg with
  | Some s => if negb (String.eqb s "") && String.eqb s "file_share" then false else true
  | None => true
  end.

(** [new this.collections.Message(msg)] after [msg.ts = new Date(msg.ts * 1000)]:
    the schema keeps the six fields of the collection. *)
Definition new_Message (msg : Message) : Document :=
  {| doc_type := msg_type msg;
     doc_channel := msg_channel msg;
     doc_user := msg_user msg;
     doc_text := msg_text msg;
     doc_ts := new_Date (msg_ts msg * 1000);
     doc_team := msg_team msg |}.

Definition saveMessage (msg : Message) : M unit :=
  let message := new_Message msg in
  call (Message_save message save_callback).

(** The closure of [saveMessage]: [err => { if (err) throw new Error(err) }]. *)
Definition saveMessage_callback (err : value) : M value :=
  if truthy err then throw (Error err) else mret VUndefined.

Definition generate (params : Request) : M unit :=
  call (Message_find (user params) (limit params) (generate_then params)).

(** The closure of [generate]. *)
Definition generate_resolved (params : Request) (messages : list Document) : M value :=
  if (length messages =? 0)%nat then
    deny (channel params) ;; mret (VBool false)
  else
    let textArr := map doc_text messages in
    chain ← generateChain (join " " textArr);
    postChain chain (user params) (channel params) ;;
    mret VUndefined.

(** The store answers and the closure runs, in a turn of its own. Nothing runs
    on a rejection, nor on an answer that is not the one of the closure's
    request. *)
Definition run_callback (k : callback) (r : reply) : M value :=
  match k, r with
  | generate_then params, Found messages => generate_resolved params messages
  | purge_then msg, Removed => _purge_then msg
  | save_callback, Saved err => saveMessage_callback err
  | _, _ => mret VUndefined
  end.

(** The handler of [MESSAGE] installed by [run]. *)
Definition on_message (msg : Message) : M unit :=
  queryParams ← getMsgTag msg;
  let command := _parseCommand msg in
  match queryParams with
  | Params p => generate p
  | _ =>
      match command with
      | Some c => _exec (cmd_method c) msg (args c)
      | None =>
          match queryParams with
          | False_ => if _warrantsSave msg then saveMessage msg else mret tt
          | _ => mret tt
          end
      end
  end.

End Methods.

(** ** Message events and the turns of the process *)

(** A message event as the client delivers it: some events carry no [text]. *)
Record Event := {
  ev_type : string;
  ev_subtype : option string;
  ev_channel : string;
  ev_user : string;
  ev_text : option string;
  ev_ts : Z;
  ev_team : string
}.

Definition with_text (ev : Event) (txt : string) : Message :=
  {| msg_type := ev_type ev; msg_subtype := ev_subtype ev; msg_channel := ev_channel ev;
     msg_user := ev_user ev; msg_text := txt; msg_ts := ev_ts ev; msg_team := ev_team ev |}.

Definition event_of (msg : Message) : Event :=
  {| ev_type := msg_type msg; ev_subtype := msg_subtype msg; ev_channel := msg_channel msg;
     ev_user := msg_user msg; ev_text := Some (msg_text msg); ev_ts := msg_ts msg;
     ev_team := msg_team msg |}.

(** The listener of [MESSAGE]. Its first statement calls [getMsgTag], whose
    first statement is [msg.text.split(' ')]: a TypeError when the event has
    no text, before anything else has run. *)
Definition MESSAGE_listener (bot : Bot) (ev : Event) : M unit :=
  match ev_text ev with
  | None => throw TypeError
  | Some txt => on_message bot (with_text ev txt)
  end.

(** The turns of the event loop on the ingestion path: the client delivers a
    message event, or the store calls the closure of [save] with the outcome
    of an insert. *)
Inductive turn :=
| Inbound (ev : Event)
| Inserted (err : value).

Inductive status :=
| Running
| Exited (e : error).

Definition run_turn (bot : Bot) (t : turn) : M unit :=
  match t with
  | Inbound ev => MESSAGE_listener bot ev
  | Inserted err => saveMessage_callback err ;; mret tt
  end.

(** Node runs each listener and each callback in a turn of its own. An
    exception that leaves a turn is uncaught: nothing in this code catches it
    and [index.js] installs no handler, so the process exits and the turns
    that follow are not run. *)
Fixpoint run_process (bot : Bot) (turns : list turn) : status * list event :=
  match turns with
  | [] => (Running, [])
  | t :: rest =>
      match run_turn bot t with
      | (tr, inl e) => (Exited e, tr)
      | (tr, inr _) => let '(st, tr') := run_process bot rest in (st, (tr ++ tr')%list)
      end
  end.

(** ** Construction: the shared default configuration *)

Abbreviation heap := (gmap loc object).

(** The object exported by [config/default.js]; every [require] of it yields
    the same object. *)
Definition defaultConfig : loc := 1%positive.

(** Its content when the module is loaded; [package] stands for the object
    built from [package.json]. *)
Definition config_default_js (package : value) : object :=
  <["limit" := VNum 150]> (<["package" := package]> ∅).

Definition initial_heap (package : value) : heap :=
  <[defaultConfig := config_default_js package]> ∅.

Definition deref (h : heap) (l : loc) : object := default ∅ (h !! l).

(** [Object.assign(target, source)]: every property of [source] is written
    into the object at [target], which is returned. *)
Definition Object_assign (target : loc) (source : object) (h : heap) : heap * loc :=
  (<[target := source ∪ deref h target]> h, target).

Definition dq : string := String (ascii_of_nat 34) "".

Definition missing (what : string) : error :=
  Error (VStr ("The " +:+ dq +:+ "Bot" +:+ dq
               +:+ " class cannot be instantiated without a " +:+ what)).

(** The bot object, as far as its configuration goes: [this.config] is a
    reference. *)
Record BotObject := {
  config_ref : loc
}.

(** The checks of the constructor, on the argument [config]. *)
Definition check_config (cfg : object) : option error :=
  if negb (truthy (get cfg "token")) then Some (missing "token")
  else if negb (truthy (get cfg "name")) then Some (missing "name")
  else if negb (truthy (get cfg "connection")) then Some (missing "connection")
  else None.

(** [new Bot(config)] through its three checks: the merge into the default
    object and the checks of the argument. [Bot_constructor] is the whole
    constructor. *)
Definition new_Bot (cfg : object) (h : heap) : heap * (error + BotObject) :=
  let '(h', r) := Object_assign defaultConfig cfg h in
  match check_config cfg with
  | Some e => (h', inl e)
  | None => (h', inr {| config_ref := r |})
  end.

(** [this] as the methods see it. *)
Definition this (h : heap) (b : BotObject) (self_name self_id : option string) : Bot :=
  {| config := deref h (config_ref b); name := self_name; id := self_id |}.

(** *** The rest of the constructor: [_db] *)

(** What constructors read and write outside the bot they build: the objects,
    and the names of the models compiled on the mongoose singleton. *)
Record process := {
  objects : heap;
  models : gset string
}.

Definition initial_process (package : value) : process :=
  {| objects := initial_heap package; models := ∅ |}.

(** [mongoose.model(name, {...})] with the schema as an object literal compiles
    a model under [name]; mongoose throws OverwriteModelError when a model of
    that name is compiled already. *)
Definition mongoose_model (name : string) (p : process) : process * (error + unit) :=
  if bool_decide (name ∈ models p) then (p, inl (OverwriteModelError name))
  else ({| objects := objects p; models := {[name]} ∪ models p |}, inr tt).

(** [require('../collections/Message')(mongoose)]: the function the module
    exports runs at every call. *)
Definition collections_Message (p : process) : process * (error + unit) :=
  mongoose_model "Message" p.

(** [_db]: after [mongoose.connect], [this.collections] is built. *)
Definition _db (p : process) : process * (error + unit) := collections_Message p.

(** The constructor after the checks of [new_bot]: [_db], then the client and
    [run], which install the listeners. *)
Definition construct (new_bot : object -> heap -> heap * (error + BotObject))
    (cfg : object) (p : process) : process * (error + BotObject) :=
  let '(h', r) := new_bot cfg (objects p) in
  let p' := {| objects := h'; models := models p |} in
  match r with
  | inl e => (p', inl e)
  | inr b =>
      match _db p' with
      | (p'', inl e) => (p'', inl e)
      | (p'', inr _) => (p'', inr b)
      end
  end.

(** [new Bot(config)] *)
Definition Bot_constructor : object -> process -> process * (error + BotObject) :=
  construct new_Bot.

(** [config.teams.forEach(teamConfig => new Bot(teamConfig))] of [index.js],
    for a constructor [ctor]: an error thrown by a constructor leaves the
    loop. *)
Fixpoint forEach_new (ctor : object -> process -> process * (error + BotObject))
    (teams : list object) (p : process) : process * (error + list BotObject) :=
  match teams with
  | [] => (p, inr [])
  | teamConfig :: rest =>
      match ctor teamConfig p with
      | (p', inl e) => (p', inl e)
      | (p', inr b) =>
          match forEach_new ctor rest p' with
          | (p'', inl e) => (p'', inl e)
          | (p'', inr bs) => (p'', inr (b :: bs))
          end
      end
  end.

Definition start_teams : list object -> process -> process * (error + list BotObject) :=
  forEach_new Bot_constructor.

(** ** The variant of [src/Bot/index.js] *)

Module BasicBot.

Definition getMsgTag (bot : Bot) (msg : Message) : M tag :=
  let msgArray := split (msg_text msg) in
  if tok_eq (msgArray !! 0%nat) (mention bot) && tok_truthy (msgArray !! 1%nat) then
    if tok_eq (msgArray !! 1%nat) "me" then
      mret (Params {| user := msg_user msg;
                      channel := msg_channel msg;
                      limit := parseInt_or (msgArray !! 2%nat) (get (config bot) "limit") |})
    else if starts_with "<@" (ToString (msgArray !! 1%nat)) then
      if tok_eq (msgArray !! 1%nat) (mention bot) then
        deny (msg_channel msg) ;; mret Null
      else
        mret (Params {| user := strip_non_alnum (ToString (msgArray !! 1%nat));
                        channel := msg_channel msg;
                        limit := parseInt_or (msgArray !! 2%nat) (get (config bot) "limit") |})
    else mret False_
  else mret False_.

Definition warrentsSave : Message -> bool := _warrantsSave.

Definition on_message (bot : Bot) (msg : Message) : M unit :=
  queryParams ← getMsgTag bot msg;
  match queryParams with
  | Params p => generate p
  | False_ => if warrentsSave msg then saveMessage msg else mret tt
  | Null => mret tt
  end.

(** The constructor through its three checks;
    [Object.assign({limit: 150}, config)]: the target is a fresh object. *)
Definition new_Bot (cfg : object) (h : heap) : heap * (error + BotObject) :=
  let l := fresh (dom h) in
  let '(h', r) := Object_assign l cfg (<[l := <["limit" := VNum 150]> ∅]> h) in
  match check_config cfg with
  | Some e => (h', inl e)
  | None => (h', inr {| config_ref := r |})
  end.

(** [new Bot(config)] *)
Definition Bot_constructor : object -> process -> process * (error + BotObject) :=
  construct new_Bot.

(** [index.js] over this variant's constructor. *)
Definition start_teams : list object -> process -> process * (error + list BotObject) :=
  forEach_new Bot_constructor.

End BasicBot.

(** ** The store, as far as the pipeline relies on it *)

(** [find({user}).limit(n)] resolves to messages of the collection written by
    that user. *)
Definition finds (store : list Document) (usr : string) (messages : list Document) : Prop :=
  forall d, d ∈ messages -> d ∈ store /\ doc_user d = usr.

(** The whole pipeline for one request: [generate], then its closure run on
    what the store found. *)
Definition pipeline (markov : string -> value -> error + string) (bot : Bot)
    (params : Request) (messages : list Document) : M value :=
  generate params ;; run_callback markov bot (generate_then params) (Found messages).

Definition is_MarkovChain_generate (e : event) : bool :=
  match e with MarkovChain_generate _ _ => true | _ => false end.

Definition is_store_call (e : event) : bool :=
  match e with
  | Message_find _ _ _ | Message_remove _ _ | Message_save _ _ => true
  | _ => false
  end.

Definition is_Message_save (e : event) : bool :=
  match e with Message_save _ _ => true | _ => false end.

(** What an insert that the store answers with [err] gives to the caller of
    [saveMessage] (first) and to the caller of its closure (second). *)
Definition ingestion_outcome (msg : Message) (err : value)
    : (error + unit) * (error + value) :=
  (result (saveMessage msg), result (saveMessage_callback err)).

(** ** The limit as the specification words it *)

Definition is_digit (c : ascii) : bool := ((48 <=? code c) && (code c <=? 57))%N.

Fixpoint all_digits (s : string) : bool :=
  match s with
  | EmptyString => true
  | String c s' => is_digit c && all_digits s'
  end.

Definition is_decimal (s : string) : bool :=
  match s with
  | EmptyString => false
  | _ => all_digits s
  end.

Fixpoint base10_from (acc : Z) (s : string) : Z :=
  match s with
  | EmptyString => acc
  | String c s' => base10_from (acc * 10 + (Z.of_N (code c) - 48)) s'
  end.

(** The base-10 integer a token of decimal digits denotes. *)
Definition spec_base10 (s : string) : Z := base10_from 0 s.

(** "Token 2, if present, is parsed as a base-10 integer and used as limit; if
    absent or not parseable, the configured default limit is used." *)
Definition spec_limit (bot : Bot) (token2 : option string) : value :=
  match token2 with
  | Some t => if is_decimal t then VNum (spec_base10 t) else get (config bot) "limit"
  | None => get (config bot) "limit"
  end.

(** ** Predicates on strings used in the statements *)

Fixpoint all_alnum (s : string) : bool :=
  match s with
  | EmptyString => true
  | String c s' => is_alnum c && all_alnum s'
  end.

Fixpoint no_alnum (s : string) : bool :=
  match s with
  | EmptyString => true
  | String c s' => negb (is_alnum c) && no_alnum s'
  end.

(** [s] is empty or begins with a character that is no decimal digit. *)
Definition no_leading_digit (s : string) : bool :=
  match s with
  | EmptyString => true
  | String c _ => negb (is_digit c)
  end.

(** [t.includes(s)] *)
Definition is_substring (s t : string) : Prop :=
  exists pre post, t = pre +:+ s +:+ post.

(** The arguments hold no help flag. *)
Definition no_help_flag (arr : list string) : Prop :=
  includes "-h" arr = false /\ includes "--help" arr = false.

(** ** Concrete inputs *)

Definition bot0 : Bot :=
  {| config := config_default_js VNull; name := Some "markov"; id := Some "B" |}.

Definition message0 (txt : string) : Message :=
  {| msg_type := "message"; msg_subtype := None; msg_channel := "C1"; msg_user := "U1";
     msg_text := txt; msg_ts := 1500000000; msg_team := "T1" |}.

Definition file_message0 (txt : string) : Message :=
  {| msg_type := "message"; msg_subtype := Some "file_share"; msg_channel := "C1";
     msg_user := "U1"; msg_text := txt; msg_ts := 1500000000; msg_team := "T1" |}.

Definition doc0 (txt : string) : Document :=
  {| doc_type := "message"; doc_channel := "C1"; doc_user := "U1"; doc_text := txt;
     doc_ts := Time 1500000000000; doc_team := "T1" |}.

Definition request0 : Request := {| user := "U1"; channel := "C1"; limit := VNum 10 |}.

Definition markov0 (seed : string) (lim : value) : error + string := inr "b c a".

Definition team1 : object :=
  <["token" := VStr "xoxb-1"]> (<["name" := VStr "one"]> (<["connection" := VStr "mongodb://db/one"]>
    (<["limit" := VNum 42]> ∅))).

Definition team2 : object :=
  <["token" := VStr "xoxb-2"]> (<["name" := VStr "two"]> (<["connection" := VStr "mongodb://db/two"]> ∅)).

(** A configuration without a token. *)
Definition team0 : object :=
  <["name" := VStr "zero"]> (<["connection" := VStr "mongodb://db/zero"]>
    (<["limit" := VNum 42]> ∅)).

Definition event0 (txt : option string) : Event :=
  {| ev_type := "message"; ev_subtype := None; ev_channel := "C1"; ev_user := "U1";
     ev_text := txt; ev_ts := 1500000000; ev_team := "T1" |}.

(** * Properties *)

#[global] Arguments starts_with : simpl never.
#[global] Arguments strip_non_alnum : simpl never.
#[global] Arguments parseInt_or : simpl never.

(** ** The definitions on small inputs *)

Example split_ex : split "<@B> me  10" = ["<@B>"; "me"; ""; "10"].
Proof. reflexivity. Qed.
Example parseInt_ex1 : parseInt (Some "10") = Some 10.
Proof. reflexivity. Qed.
Example parseInt_ex2 : parseInt (Some "0x1f") = Some 31.
Proof. reflexivity. Qed.
Example parseInt_ex3 : parseInt (Some "-12abc") = Some (-12).
Proof. reflexivity. Qed.
Example parseInt_ex4 : parseInt None = None.
Proof. reflexivity. Qed.
Example parseInt_ex5 : parseInt (Some "") = None.
Proof. reflexivity. Qed.
Example parseInt_ex6 : parseInt (Some "0") = Some 0.
Proof. reflexivity. Qed.
Example parseInt_ex7 : parseInt (Some "9007199254740993") = Some 9007199254740992.
Proof. reflexivity. Qed.
Example parseInt_ex8 : parseInt (Some "-9007199254740995") = Some (-9007199254740996).
Proof. reflexivity. Qed.
Example nearest_double_overflow : nearest_double (10 ^ 400) = Infinity.
Proof. vm_compute. reflexivity. Qed.
Example nearest_double_max :
  nearest_double (2 ^ 1024 - 2 ^ 970 - 1) = 2 ^ 1024 - 2 ^ 971.
Proof. vm_compute. reflexivity. Qed.
Example getMsgTag_big_limit :
  getMsgTag bot0 (message0 "<@B> me 9007199254740993") =
    ([], inr (Params {| user := "U1"; channel := "C1"; limit := VNum 9007199254740992 |})).
Proof. reflexivity. Qed.
Example MESSAGE_listener_no_text : MESSAGE_listener bot0 (event0 None) = ([], inl TypeError).
Proof. reflexivity. Qed.
Example join_ex : join " " ["a"; "b"; "c"] = "a b c".
Proof. reflexivity. Qed.
Example getMsgTag_other_user :
  getMsgTag bot0 (message0 "<@B> <@U2>! 5") =
    ([], inr (Params {| user := "U2"; channel := "C1"; limit := VNum 5 |})).
Proof. reflexivity. Qed.
Example getMsgTag_alone : getMsgTag bot0 (message0 "<@B>") = ([], inr False_).
Proof. reflexivity. Qed.
Example on_message_purge :
  on_message bot0 (message0 "<@B> purge") =
    ([Message_remove "U1" (purge_then (message0 "<@B> purge"))], inr tt).
Proof. reflexivity. Qed.
Example on_message_help :
  on_message bot0 (message0 "<@B> help") =
    ([sendMessage
        (VStr ("Here is a list of the commands I know: " +:+ CR +:+ CR
               +:+ "`purge`: Purges all of a user's messages from the database" +:+ CR
               +:+ "`help`: Displays the help message")) "C1"], inr tt).
Proof. reflexivity. Qed.
Example on_message_inherited_key :
  on_message bot0 (message0 "<@B> constructor") = ([], inl TypeError).
Proof. reflexivity. Qed.
Example on_message_unknown_keyword :
  on_message bot0 (message0 "<@B> dance") =
    ([Message_save (new_Message (message0 "<@B> dance")) save_callback], inr tt).
Proof. reflexivity. Qed.

(** Membership in a trace that is written out: every candidate is compared. *)
Ltac in_trace H :=
  apply list_elem_of_In in H; simpl in H;
  repeat (destruct H as [H|H]; [try discriminate H|]);
  try contradiction.

(** ** Tokens and the mention literal *)

Lemma split_nonempty (s : string) : split s <> [].
Proof.
  induction s as [|c s IH]; simpl; [discriminate|].
  destruct (code c =? 32)%N; [discriminate|].
  destruct (split s); discriminate.
Qed.

Lemma mention_not_empty (bot : Bot) : String.eqb (mention bot) "" = false.
Proof. reflexivity. Qed.

Lemma mention_not_me (bot : Bot) : String.eqb (mention bot) "me" = false.
Proof. reflexivity. Qed.

Lemma mention_starts (bot : Bot) : starts_with "<@" (mention bot) = true.
Proof. reflexivity. Qed.

Lemma _isCalled_tokens (bot : Bot) (msg : Message) :
  _isCalled bot msg =
    if tok_truthy (split (msg_text msg) !! 1%nat)
       && tok_eq (split (msg_text msg) !! 0%nat) (mention bot)
    then Some (split (msg_text msg)) else None.
Proof.
  unfold _isCalled.
  destruct (split (msg_text msg)) eqn:E; [by apply split_nonempty in E|].
  reflexivity.
Qed.

Lemma _isCalled_Some (bot : Bot) (msg : Message) (msgArr : list string) :
  _isCalled bot msg = Some msgArr ->
  exists t1 rest,
    split (msg_text msg) = mention bot :: t1 :: rest /\ t1 <> "" /\
    msgArr = mention bot :: t1 :: rest.
Proof.
  rewrite _isCalled_tokens.
  destruct (split (msg_text msg)) as [|t0 [|t1 rest]]; simpl; try discriminate.
  - destruct (String.eqb_spec t1 ""); simpl; [discriminate|].
    destruct (String.eqb_spec t0 (mention bot)); [|discriminate].
    intros [= <-]. subst t0. by exists t1, rest.
Qed.

Lemma _isCalled_addressed (bot : Bot) (msg : Message) (t1 : string) (rest : list string) :
  split (msg_text msg) = mention bot :: t1 :: rest -> t1 <> "" ->
  _isCalled bot msg = Some (mention bot :: t1 :: rest).
Proof.
  intros E Ht1. rewrite _isCalled_tokens, E. simpl.
  rewrite String.eqb_refl.
  destruct (String.eqb_spec t1 ""); [contradiction|reflexivity].
Qed.

(** The two variants parse mentions alike. *)
Lemma BasicBot_getMsgTag_eq (bot : Bot) (msg : Message) :
  BasicBot.getMsgTag bot msg = getMsgTag bot msg.
Proof.
  unfold BasicBot.getMsgTag, getMsgTag. rewrite _isCalled_tokens.
  rewrite (andb_comm (tok_eq _ _)).
  by destruct (tok_truthy _ && tok_eq _ _).
Qed.

(** ** parseInt on a token of decimal digits *)

Lemma is_digit_facts (c : ascii) :
  is_digit c = true ->
  is_StrWhiteSpaceChar c = false /\ Ascii.eqb c "-" = false /\ Ascii.eqb c "+" = false
  /\ Ascii.eqb c "x" = false /\ Ascii.eqb c "X" = false
  /\ digit_value c = Some (Z.of_N (code c) - 48) /\ Z.of_N (code c) - 48 < 10.
Proof.
  destruct c as [[] [] [] [] [] [] [] []]; vm_compute; intros H;
    first [discriminate H | repeat split; congruence].
Qed.

Lemma mathInt_all_digits (s : string) (acc : Z) :
  all_digits s = true ->
  fold_left (fun a d => a * 10 + d) (radix_prefix 10 s) acc = base10_from acc s.
Proof.
  revert acc. induction s as [|c s IH]; intros acc; simpl; [reflexivity|].
  intros [Hc Hs]%andb_true_iff.
  destruct (is_digit_facts c Hc) as (_ & _ & _ & _ & _ & -> & Hlt).
  apply Z.ltb_lt in Hlt. rewrite Hlt. simpl. by apply IH.
Qed.

(** *** The nearest double *)

Lemma nearest_double_small (n : Z) : n < 2 ^ 53 -> nearest_double n = n.
Proof.
  intros H. unfold nearest_double.
  destruct (Z.ltb_spec n (2 ^ 53)); [reflexivity|lia].
Qed.

Lemma nearest_double_pos (n : Z) : 0 < n -> 0 < nearest_double n.
Proof.
  intros Hn. unfold nearest_double.
  destruct (Z.ltb_spec n (2 ^ 53)) as [_|Hbig]; [exact Hn|].
  assert (53 <= Z.log2 n) as Hlog by (apply Z.log2_le_pow2; lia).
  set (e := Z.log2 n - 52).
  assert (0 < 2 ^ e) as Hpow by (apply Z.pow_pos_nonneg; lia).
  assert (2 ^ e <= n) as Hle.
  { transitivity (2 ^ Z.log2 n); [apply Z.pow_le_mono_r; lia|].
    apply Z.log2_spec. exact Hn. }
  assert (0 < n / 2 ^ e) as Hq by (apply Z.div_str_pos; lia).
  cbv zeta.
  destruct ((2 ^ e <? 2 * (n mod 2 ^ e)) || _);
    destruct (2 ^ 1024 <=? _); try (unfold Infinity; lia); nia.
Qed.

Lemma nearest_double_nonzero (n : Z) : 0 <= n -> n <> 0 -> nearest_double n <> 0.
Proof. intros H0 Hn. assert (0 < nearest_double n); [apply nearest_double_pos|]; lia. Qed.

Lemma spec_base10_nonneg_from (s : string) (acc : Z) :
  all_digits s = true -> 0 <= acc -> 0 <= base10_from acc s.
Proof.
  revert acc. induction s as [|c s IH]; intros acc; simpl; [done|].
  intros [Hc Hs]%andb_true_iff Hacc. apply IH; [exact Hs|].
  unfold is_digit in Hc. apply andb_true_iff in Hc as [H1 _]. apply N.leb_le in H1. lia.
Qed.

Lemma spec_base10_nonneg (t : string) : is_decimal t = true -> 0 <= spec_base10 t.
Proof.
  intros Ht. apply spec_base10_nonneg_from; [|lia]. destruct t; [discriminate|exact Ht].
Qed.

Lemma parseInt_decimal (s : string) :
  is_decimal s = true -> parseInt (Some s) = Some (nearest_double (spec_base10 s)).
Proof.
  destruct s as [|c s]; [discriminate|]. intros Hs.
  pose proof Hs as [Hc Hs']%andb_true_iff.
  destruct (is_digit_facts c Hc) as (Hws & Hm & Hp & _ & _ & Hd & Hlt).
  unfold parseInt. simpl ToString. simpl trim_left. rewrite Hws.
  unfold strip_sign. rewrite Hm, Hp.
  assert (strip_hex_prefix (String c s) = (10, String c s)) as ->.
  { destruct s as [|x r]; [reflexivity|]. simpl.
    simpl in Hs'. apply andb_true_iff in Hs' as [Hx _].
    destruct (is_digit_facts x Hx) as (_ & _ & _ & -> & -> & _).
    by rewrite andb_false_r. }
  pose proof (mathInt_all_digits (String c s) 0 Hs) as Hfold.
  cbn [radix_prefix] in *. rewrite Hd in *.
  apply Z.ltb_lt in Hlt. rewrite Hlt in *.
  unfold mathInt. rewrite Hfold. unfold spec_base10.
  f_equal. lia.
Qed.

Lemma parseInt_or_decimal (t : string) (d : value) :
  is_decimal t = true -> spec_base10 t <> 0 ->
  parseInt_or (Some t) d = VNum (nearest_double (spec_base10 t)).
Proof.
  intros Ht Hv. unfold parseInt_or. rewrite (parseInt_decimal t Ht).
  pose proof (nearest_double_nonzero (spec_base10 t) (spec_base10_nonneg t Ht) Hv) as Hz.
  apply Z.eqb_neq in Hz. by rewrite Hz.
Qed.

(** ** C1: the "me" call form *)

(** C1, as the code has it. When the text splits on spaces into the bot's own
    mention, the token "me" and further tokens, [getMsgTag] sends nothing and
    returns a request for the author on the message's channel. Its limit is
    the number [parseInt] reads from token 2 when there is one and it is not
    zero, and the configured limit when token 2 is absent, yields no number,
    or yields zero. For a token of decimal digits of non-zero value the
    number read is the double nearest to the base-10 value: the value itself
    below 2^53. The variant of [src/Bot/index.js] returns the same. *)
Theorem getMsgTag_me (bot : Bot) (msg : Message) (rest : list string) :
  split (msg_text msg) = mention bot :: "me" :: rest ->
  exists lim,
    getMsgTag bot msg =
      ([], inr (Params {| user := msg_user msg; channel := msg_channel msg; limit := lim |}))
    /\ (rest = [] -> lim = get (config bot) "limit")
    /\ (parseInt (rest !! 0%nat) = None -> lim = get (config bot) "limit")
    /\ (parseInt (rest !! 0%nat) = Some 0 -> lim = get (config bot) "limit")
    /\ (forall z, parseInt (rest !! 0%nat) = Some z -> z <> 0 -> lim = VNum z)
    /\ (forall t, rest !! 0%nat = Some t -> is_decimal t = true -> spec_base10 t <> 0 ->
        lim = VNum (nearest_double (spec_base10 t))
        /\ (spec_base10 t < 2 ^ 53 -> lim = VNum (spec_base10 t)))
    /\ BasicBot.getMsgTag bot msg = getMsgTag bot msg.
Proof.
  intros E.
  exists (parseInt_or (rest !! 0%nat) (get (config bot) "limit")).
  split.
  { unfold getMsgTag. rewrite (_isCalled_addressed bot msg "me" rest E) by discriminate.
    rewrite E. reflexivity. }
  split; [intros ->; reflexivity|].
  split; [unfold parseInt_or; intros ->; reflexivity|].
  split; [unfold parseInt_or; intros ->; reflexivity|].
  split.
  { intros z Hz Hne. unfold parseInt_or. rewrite Hz. apply Z.eqb_neq in Hne. by rewrite Hne. }
  split; [|apply BasicBot_getMsgTag_eq].
  intros t -> Ht Hz. rewrite (parseInt_or_decimal t _ Ht Hz).
  split; [reflexivity|]. intros Hsmall. by rewrite nearest_double_small.
Qed.

Lemma getMsgTag_me_witness :
  exists lim,
    getMsgTag bot0 (message0 "<@B> me 10") =
      ([], inr (Params {| user := "U1"; channel := "C1"; limit := lim |}))
    /\ lim = VNum 10.
Proof.
  destruct (getMsgTag_me bot0 (message0 "<@B> me 10") ["10"] eq_refl)
    as (lim & Hres & _ & _ & _ & Hz & _ & _).
  exists lim. split; [exact Hres|]. apply Hz; [reflexivity|discriminate].
Defined.

(** C1 as the specification states it fails: with the configured limit 150,
    ["<@B> me 0"] has a token 2 that parses to the base-10 integer 0, yet the
    limit of the request is 150. *)
Lemma me_zero_keeps_configured_limit :
  ~ (forall (bot : Bot) (msg : Message) (rest : list string),
        split (msg_text msg) = mention bot :: "me" :: rest ->
        getMsgTag bot msg =
          ([], inr (Params {| user := msg_user msg; channel := msg_channel msg;
                              limit := spec_limit bot (rest !! 0%nat) |}))).
Proof.
  intros H. specialize (H bot0 (message0 "<@B> me 0") ["0"] eq_refl).
  vm_compute in H. discriminate H.
Qed.

(** ** The three outcomes of the mention parser *)

Lemma commands_get_mention (bot : Bot) : commands_get (mention bot) = Absent.
Proof. reflexivity. Qed.

Lemma getMsgTag_cases (bot : Bot) (msg : Message) :
  (exists p, getMsgTag bot msg = ([], inr (Params p)))
  \/ (getMsgTag bot msg = ([sendMessage (VStr denial) (msg_channel msg)], inr Null)
      /\ exists rest, split (msg_text msg) = mention bot :: mention bot :: rest)
  \/ getMsgTag bot msg = ([], inr False_).
Proof.
  unfold getMsgTag.
  destruct (_isCalled bot msg) as [msgArr|] eqn:E; [|right; right; reflexivity].
  apply _isCalled_Some in E as (t1 & rest & Hs & Hne & ->).
  rewrite Hs. simpl.
  destruct (String.eqb t1 "me"); [left; eauto|].
  destruct (starts_with "<@" t1); [|right; right; reflexivity].
  destruct (String.eqb_spec t1 (mention bot)) as [->|]; [|left; eauto].
  right; left. split; [reflexivity|]. by exists rest.
Qed.

Lemma getMsgTag_self_mention (bot : Bot) (msg : Message) (rest : list string) :
  split (msg_text msg) = mention bot :: mention bot :: rest ->
  getMsgTag bot msg = ([sendMessage (VStr denial) (msg_channel msg)], inr Null).
Proof.
  intros E. unfold getMsgTag.
  rewrite (_isCalled_addressed bot msg (mention bot) rest E) by discriminate.
  rewrite E. simpl. rewrite String.eqb_refl. reflexivity.
Qed.

Lemma _parseCommand_self_mention (bot : Bot) (msg : Message) (rest : list string) :
  split (msg_text msg) = mention bot :: mention bot :: rest ->
  _parseCommand bot msg = None.
Proof.
  intros E. unfold _parseCommand.
  rewrite (_isCalled_addressed bot msg (mention bot) rest E) by discriminate.
  reflexivity.
Qed.

Lemma on_message_self_mention (bot : Bot) (msg : Message) (rest : list string) :
  split (msg_text msg) = mention bot :: mention bot :: rest ->
  on_message bot msg = ([sendMessage (VStr denial) (msg_channel msg)], inr tt).
Proof.
  intros E. unfold on_message.
  rewrite (getMsgTag_self_mention bot msg rest E), (_parseCommand_self_mention bot msg rest E).
  reflexivity.
Qed.

Lemma getMsgTag_Null (bot : Bot) (msg : Message) :
  result (getMsgTag bot msg) = inr Null ->
  exists rest, split (msg_text msg) = mention bot :: mention bot :: rest.
Proof.
  destruct (getMsgTag_cases bot msg) as [(p & ->)|[(_ & H)| ->]];
    [discriminate|by intros _|discriminate].
Qed.

(** ** C2: a self-mention is denied *)

(** C2. When the first two tokens are both the bot's own mention,
    [getMsgTag] returns [null] and sends the denial once to the message's
    channel; the message handler as a whole makes that one call and no other:
    no find, no remove, no save, and [generate] is not entered. *)
Theorem self_mention_denied (bot : Bot) (msg : Message) (rest : list string) :
  split (msg_text msg) = mention bot :: mention bot :: rest ->
  getMsgTag bot msg =
    ([sendMessage (VStr "I'm sorry, Dave. I'm afraid I can't do that") (msg_channel msg)],
     inr Null)
  /\ on_message bot msg =
    ([sendMessage (VStr "I'm sorry, Dave. I'm afraid I can't do that") (msg_channel msg)],
     inr tt)
  /\ filter (fun e => is_store_call e = true) (trace (on_message bot msg)) = [].
Proof.
  intros E.
  rewrite (on_message_self_mention bot msg rest E).
  split; [exact (getMsgTag_self_mention bot msg rest E)|].
  split; reflexivity.
Qed.

Lemma self_mention_denied_witness :
  on_message bot0 (message0 "<@B> <@B> 5") =
    ([sendMessage (VStr "I'm sorry, Dave. I'm afraid I can't do that") "C1"], inr tt).
Proof.
  apply (self_mention_denied bot0 (message0 "<@B> <@B> 5") ["5"]). reflexivity.
Defined.

(** ** What a handler run can contain *)

Lemma includes_In (x : string) (l : list string) : includes x l = true <-> In x l.
Proof.
  unfold includes. rewrite existsb_exists. split.
  - intros (y & Hy & ->%String.eqb_eq). exact Hy.
  - intros H. exists x. split; [exact H|apply String.eqb_refl].
Qed.

Lemma _exec_no_save (methodName : value) (msg : Message) (arr : list string) (e : event) :
  e ∈ trace (_exec methodName msg arr) -> is_Message_save e = false.
Proof.
  intros H. apply list_elem_of_In in H. revert H. unfold _exec.
  destruct (includes "-h" arr || includes "--help" arr).
  - destruct (commands_get _); simpl; first [intros [<-|[]]; reflexivity | intros []].
  - unfold invoke. destruct methodName; try (intros []).
    destruct (String.eqb s "_purge"); [intros [<-|[]]; reflexivity|].
    destruct (String.eqb s "_help"); [intros [<-|[]]; reflexivity|intros []].
Qed.

Lemma on_message_Params (bot : Bot) (msg : Message) (p : Request) :
  getMsgTag bot msg = ([], inr (Params p)) ->
  on_message bot msg = ([Message_find (user p) (limit p) (generate_then p)], inr tt).
Proof. intros H. unfold on_message. rewrite H. reflexivity. Qed.

Lemma on_message_command (bot : Bot) (msg : Message) (c : Command) :
  getMsgTag bot msg = ([], inr False_) -> _parseCommand bot msg = Some c ->
  on_message bot msg = _exec (cmd_method c) msg (args c).
Proof.
  intros H Hc. unfold on_message. rewrite H, Hc.
  unfold mbind, M_bind. by destruct (_exec _ _ _).
Qed.

Lemma on_message_ingest (bot : Bot) (msg : Message) :
  getMsgTag bot msg = ([], inr False_) -> _parseCommand bot msg = None ->
  on_message bot msg = if _warrantsSave msg then saveMessage msg else ([], inr tt).
Proof.
  intros H Hc. unfold on_message. rewrite H, Hc.
  unfold mbind, M_bind. by destruct (_warrantsSave msg).
Qed.

Lemma getMsgTag_False (bot : Bot) (msg : Message) :
  result (getMsgTag bot msg) = inr False_ -> getMsgTag bot msg = ([], inr False_).
Proof.
  destruct (getMsgTag_cases bot msg) as [(p & ->)|[(-> & _)| ->]];
    [discriminate|discriminate|reflexivity].
Qed.

(** A save in the trace of the handler pins down the branch it took. *)
Lemma on_message_save_inv (bot : Bot) (msg : Message) (doc : Document) (k : callback) :
  Message_save doc k ∈ trace (on_message bot msg) ->
  getMsgTag bot msg = ([], inr False_) /\ _parseCommand bot msg = None
  /\ _warrantsSave msg = true.
Proof.
  intros Hin.
  destruct (getMsgTag_cases bot msg) as [(p & Hp)|[(Hn & rest & E)|Hf]].
  - rewrite (on_message_Params bot msg p Hp) in Hin. in_trace Hin.
  - rewrite (on_message_self_mention bot msg rest E) in Hin. in_trace Hin.
  - split; [exact Hf|].
    destruct (_parseCommand bot msg) as [c|] eqn:Hc.
    + rewrite (on_message_command bot msg c Hf Hc) in Hin.
      apply _exec_no_save in Hin. discriminate Hin.
    + split; [reflexivity|].
      rewrite (on_message_ingest bot msg Hf Hc) in Hin.
      destruct (_warrantsSave msg); [reflexivity|in_trace Hin].
Qed.

(** ** C10: nothing but the denial after a self-mention *)

(** C10. When [getMsgTag] returns [null] no command is resolved and the
    handler does nothing beyond the denial [getMsgTag] has sent: [_exec] is not
    reached and nothing is saved. A save is requested only when [getMsgTag]
    returned [false] and [_parseCommand] returned [false]. The handler of
    [src/Bot/index.js], which has no commands, does the same on [null] and
    saves only on [false]. *)
Theorem null_is_neither_executed_nor_saved (bot : Bot) (msg : Message) :
  (result (getMsgTag bot msg) = inr Null ->
     _parseCommand bot msg = None
     /\ on_message bot msg = (trace (getMsgTag bot msg), inr tt)
     /\ on_message bot msg = ([sendMessage (VStr denial) (msg_channel msg)], inr tt)
     /\ BasicBot.on_message bot msg = ([sendMessage (VStr denial) (msg_channel msg)], inr tt))
  /\ (forall doc k, Message_save doc k ∈ trace (on_message bot msg) ->
        result (getMsgTag bot msg) = inr False_ /\ _parseCommand bot msg = None)
  /\ (forall doc k, Message_save doc k ∈ trace (BasicBot.on_message bot msg) ->
        result (BasicBot.getMsgTag bot msg) = inr False_).
Proof.
  split; [|split].
  - intros Hnull. apply getMsgTag_Null in Hnull as (rest & E).
    rewrite (on_message_self_mention bot msg rest E).
    unfold BasicBot.on_message. rewrite BasicBot_getMsgTag_eq.
    rewrite (getMsgTag_self_mention bot msg rest E).
    split; [exact (_parseCommand_self_mention bot msg rest E)|]. by repeat split.
  - intros doc k Hin.
    destruct (on_message_save_inv bot msg doc k Hin) as (-> & -> & _). by split.
  - intros doc k. unfold BasicBot.on_message. rewrite BasicBot_getMsgTag_eq.
    destruct (getMsgTag_cases bot msg) as [(p & ->)|[(-> & _)| ->]]; simpl;
      [|  |reflexivity]; intros Hin; in_trace Hin.
Qed.

Lemma null_is_neither_executed_nor_saved_witness :
  on_message bot0 (message0 "<@B> <@B>") = ([sendMessage (VStr denial) "C1"], inr tt)
  /\ (result (getMsgTag bot0 (message0 "hello there")) = inr False_
      /\ _parseCommand bot0 (message0 "hello there") = None).
Proof.
  split.
  - apply (proj1 (null_is_neither_executed_nor_saved bot0 (message0 "<@B> <@B>"))).
    reflexivity.
  - apply (proj1 (proj2 (null_is_neither_executed_nor_saved bot0 (message0 "hello there")))
             (new_Message (message0 "hello there")) save_callback).
    apply list_elem_of_In. simpl. left. reflexivity.
Defined.

(** ** C6: the help flag *)

Lemma commands_get_not_call_form (k : string) :
  commands_get k <> Absent -> String.eqb k "me" = false /\ starts_with "<@" k = false.
Proof.
  intros H. split.
  - destruct (String.eqb_spec k "me") as [->|]; [|reflexivity].
    exfalso. apply H. reflexivity.
  - destruct (starts_with "<@" k) eqn:E; [|reflexivity].
    exfalso. apply H.
    destruct k as [|a k]; [discriminate E|].
    unfold starts_with in E. apply andb_true_iff in E as [<-%Ascii.eqb_eq _].
    reflexivity.
Qed.

Lemma _parseCommand_Some (bot : Bot) (msg : Message) (c : Command) :
  _parseCommand bot msg = Some c ->
  exists t1 rest,
    split (msg_text msg) = mention bot :: t1 :: rest /\ t1 <> ""
    /\ commands_get t1 <> Absent
    /\ c = {| cmd_method := property_method (commands_get t1);
              cmd_description := property_description (commands_get t1);
              args := rest |}.
Proof.
  unfold _parseCommand.
  destruct (_isCalled bot msg) as [msgArr|] eqn:E; [|discriminate].
  apply _isCalled_Some in E as (t1 & rest & Hs & Hne & ->).
  simpl. intros H. exists t1, rest. repeat split; try assumption.
  - intros Ha. rewrite Ha in H. discriminate H.
  - destruct (commands_get t1); [|injection H as <-; reflexivity|discriminate H].
    injection H as <-. reflexivity.
Qed.

Lemma getMsgTag_command (bot : Bot) (msg : Message) (c : Command) :
  _parseCommand bot msg = Some c -> getMsgTag bot msg = ([], inr False_).
Proof.
  intros Hc. apply _parseCommand_Some in Hc as (t1 & rest & Hs & Hne & Hget & _).
  destruct (commands_get_not_call_form t1 Hget) as [Hme Hat].
  unfold getMsgTag. rewrite (_isCalled_addressed bot msg t1 rest Hs Hne), Hs.
  simpl. rewrite Hme, Hat. reflexivity.
Qed.

(** C6. For a message that resolves to a command whose arguments contain
    [-h] or [--help] at any position, [_exec] makes one call, whatever method
    name it is given: it sends to the message's channel the description that
    the command table holds for the second token of the text, which is the
    description of the resolved command. The message handler as a whole does
    exactly that. *)
Theorem _exec_help_flag (bot : Bot) (msg : Message) (c : Command) :
  _parseCommand bot msg = Some c ->
  In "-h" (args c) \/ In "--help" (args c) ->
  (forall methodName,
      _exec methodName msg (args c) =
        ([sendMessage
            (property_description (commands_get (ToString (split (msg_text msg) !! 1%nat))))
            (msg_channel msg)], inr tt))
  /\ property_description (commands_get (ToString (split (msg_text msg) !! 1%nat)))
     = cmd_description c
  /\ on_message bot msg = ([sendMessage (cmd_description c) (msg_channel msg)], inr tt).
Proof.
  intros Hc Hflag.
  pose proof (getMsgTag_command bot msg c Hc) as Hf.
  pose proof (on_message_command bot msg c Hf Hc) as Hon.
  apply _parseCommand_Some in Hc as (t1 & rest & Hs & Hne & Hget & ->).
  simpl in *.
  assert (includes "-h" rest || includes "--help" rest = true) as Hb.
  { apply orb_true_iff. destruct Hflag as [H|H]; [left|right]; by apply includes_In. }
  assert (forall methodName, _exec methodName msg rest =
            ([sendMessage (property_description (commands_get t1)) (msg_channel msg)], inr tt))
    as Hexec.
  { intros methodName. unfold _exec. rewrite Hb, Hs. simpl.
    destruct (commands_get t1); [reflexivity|reflexivity|contradiction]. }
  rewrite Hs. simpl. split; [exact Hexec|]. split; [reflexivity|].
  rewrite Hon. apply Hexec.
Qed.

Lemma _exec_help_flag_witness :
  on_message bot0 (message0 "<@B> purge now -h") =
    ([sendMessage (VStr "Purges all of a user's messages from the database") "C1"], inr tt).
Proof.
  apply (_exec_help_flag bot0 (message0 "<@B> purge now -h")
           {| cmd_method := VStr "_purge";
              cmd_description := VStr "Purges all of a user's messages from the database";
              args := ["now"; "-h"] |}).
  - reflexivity.
  - simpl. auto.
Defined.

(** ** C7: the ingestion filter *)

Lemma _warrantsSave_file_share (msg : Message) :
  _warrantsSave msg = false <-> msg_subtype msg = Some "file_share".
Proof.
  unfold _warrantsSave. destruct (msg_subtype msg) as [s|]; [|split; discriminate].
  destruct (String.eqb_spec s "file_share") as [->|Hne]; simpl.
  - split; reflexivity.
  - rewrite andb_false_r. split; [discriminate|]. intros [= ->]. contradiction.
Qed.

(** C7. For a message on which [getMsgTag] returns [false] and
    [_parseCommand] returns [false]: with subtype "file_share" the handler
    calls nothing, so nothing is saved; with any other subtype or none it
    requests exactly one save, of the document that copies type, channel,
    user, text and team and whose [ts] is [new Date(ts * 1000)], the time
    value [ts * 1000] milliseconds whenever that is in the range of a Date. *)
Theorem ingestion_filter (bot : Bot) (msg : Message) :
  result (getMsgTag bot msg) = inr False_ ->
  _parseCommand bot msg = None ->
  (msg_subtype msg = Some "file_share" -> on_message bot msg = ([], inr tt))
  /\ (msg_subtype msg <> Some "file_share" ->
      on_message bot msg =
        ([Message_save {| doc_type := msg_type msg;
                          doc_channel := msg_channel msg;
                          doc_user := msg_user msg;
                          doc_text := msg_text msg;
                          doc_ts := new_Date (msg_ts msg * 1000);
                          doc_team := msg_team msg |} save_callback], inr tt))
  /\ (Z.abs (msg_ts msg) * 1000 <= 8640000000000000 ->
      new_Date (msg_ts msg * 1000) = Time (msg_ts msg * 1000)).
Proof.
  intros Hf%getMsgTag_False Hc.
  rewrite (on_message_ingest bot msg Hf Hc).
  split; [|split].
  - intros Hs. apply _warrantsSave_file_share in Hs. by rewrite Hs.
  - intros Hs. destruct (_warrantsSave msg) eqn:E; [reflexivity|].
    apply _warrantsSave_file_share in E. contradiction.
  - intros Hr. unfold new_Date.
    destruct (Z.leb_spec (Z.abs (msg_ts msg * 1000)) 8640000000000000); [reflexivity|lia].
Qed.

Lemma ingestion_filter_witness :
  on_message bot0 (message0 "hello there") =
    ([Message_save {| doc_type := "message"; doc_channel := "C1"; doc_user := "U1";
                      doc_text := "hello there"; doc_ts := Time 1500000000000;
                      doc_team := "T1" |} save_callback], inr tt)
  /\ on_message bot0 (file_message0 "look at this") = ([], inr tt).
Proof.
  split.
  - apply (ingestion_filter bot0 (message0 "hello there")).
    + reflexivity.
    + reflexivity.
    + discriminate.
  - apply (ingestion_filter bot0 (file_message0 "look at this")); reflexivity.
Defined.

(** ** C3, C4, C5: the generation pipeline *)

Lemma pipeline_unfold (markov : string -> value -> error + string) (bot : Bot)
    (params : Request) (messages : list Document) :
  pipeline markov bot params messages =
    (Message_find (user params) (limit params) (generate_then params)
       :: trace (generate_resolved markov bot params messages),
     result (generate_resolved markov bot params messages)).
Proof.
  unfold pipeline, generate, call, mbind, M_bind. simpl.
  by destruct (generate_resolved markov bot params messages).
Qed.

Lemma generate_resolved_nonempty (markov : string -> value -> error + string) (bot : Bot)
    (params : Request) (messages : list Document) :
  messages <> [] ->
  generate_resolved markov bot params messages =
    match markov (join " " (map doc_text messages)) (get (config bot) "limit") with
    | inl e =>
        ([MarkovChain_generate (join " " (map doc_text messages)) (get (config bot) "limit")],
         inl e)
    | inr chain =>
        ([MarkovChain_generate (join " " (map doc_text messages)) (get (config bot) "limit");
          sendMessage (VStr ("<@" +:+ user params +:+ "> says: " +:+ chain)) (channel params)],
         inr VUndefined)
    end.
Proof.
  intros Hne. unfold generate_resolved.
  destruct messages as [|d ms]; [contradiction|].
  simpl length. simpl Nat.eqb. cbv iota.
  unfold generateChain, postChain, call, throw, mbind, M_bind, mret, M_ret.
  by destruct (markov _ _).
Qed.

(** C3. When the collection holds no message of the requested user, whatever
    [find] resolves to is empty, and the pipeline makes two calls: the find,
    and one [sendMessage] of the fixed denial to the channel of the request.
    The generator is not called. *)
Theorem generate_denies_without_messages
    (markov : string -> value -> error + string) (bot : Bot) (params : Request)
    (store messages : list Document) :
  (forall d, d ∈ store -> doc_user d <> user params) ->
  finds store (user params) messages ->
  pipeline markov bot params messages =
    ([Message_find (user params) (limit params) (generate_then params);
      sendMessage (VStr "I'm sorry, Dave. I'm afraid I can't do that") (channel params)],
     inr (VBool false))
  /\ filter (fun e => is_MarkovChain_generate e = true)
       (trace (pipeline markov bot params messages)) = [].
Proof.
  intros Hnone Hfinds.
  assert (messages = []) as ->.
  { destruct messages as [|d ms]; [reflexivity|].
    destruct (Hfinds d) as [Hin Hu]; [apply list_elem_of_In; left; reflexivity|].
    destruct (Hnone d Hin Hu). }
  split; reflexivity.
Qed.

Lemma generate_denies_without_messages_witness :
  pipeline markov0 bot0 request0 [] =
    ([Message_find "U1" (VNum 10) (generate_then request0);
      sendMessage (VStr "I'm sorry, Dave. I'm afraid I can't do that") "C1"],
     inr (VBool false)).
Proof.
  apply (generate_denies_without_messages markov0 bot0 request0
           [{| doc_type := "message"; doc_channel := "C1"; doc_user := "U2";
               doc_text := "other"; doc_ts := Time 0; doc_team := "T1" |}] []).
  - intros d Hd. apply list_elem_of_In in Hd. simpl in Hd.
    destruct Hd as [<-|[]]. discriminate.
  - intros d Hd. apply list_elem_of_In in Hd. destruct Hd.
Defined.

(** C4. When [find] resolves to a non-empty list, the pipeline calls the
    generator with the texts joined by single spaces in the order of that list,
    and, when the generator returns a chain, sends to the channel of the
    request the mention of the target user followed by " says: " and the
    chain. *)
Theorem generate_posts_chain
    (markov : string -> value -> error + string) (bot : Bot) (params : Request)
    (messages : list Document) :
  messages <> [] ->
  (exists tl,
      trace (pipeline markov bot params messages) =
        Message_find (user params) (limit params) (generate_then params)
          :: MarkovChain_generate (join " " (map doc_text messages)) (get (config bot) "limit")
          :: tl)
  /\ (forall chain,
        markov (join " " (map doc_text messages)) (get (config bot) "limit") = inr chain ->
        pipeline markov bot params messages =
          ([Message_find (user params) (limit params) (generate_then params);
            MarkovChain_generate (join " " (map doc_text messages)) (get (config bot) "limit");
            sendMessage (VStr ("<@" +:+ user params +:+ "> says: " +:+ chain)) (channel params)],
           inr VUndefined)).
Proof.
  intros Hne. rewrite pipeline_unfold, (generate_resolved_nonempty markov bot params messages Hne).
  split.
  - destruct (markov _ _); simpl; eauto.
  - intros chain ->. reflexivity.
Qed.

Lemma generate_posts_chain_witness :
  pipeline markov0 bot0 request0 [doc0 "a"; doc0 "b"; doc0 "c"] =
    ([Message_find "U1" (VNum 10) (generate_then request0);
      MarkovChain_generate "a b c" (VNum 150);
      sendMessage (VStr "<@U1> says: b c a") "C1"],
     inr VUndefined).
Proof.
  apply (generate_posts_chain markov0 bot0 request0 [doc0 "a"; doc0 "b"; doc0 "c"]).
  - discriminate.
  - reflexivity.
Defined.

(** C5 as the specification states it fails: for the request of
    ["<@B> me 10"] the find is capped at 10 while the generator is given the
    configured 150. *)
Lemma generator_bound_differs_from_request_limit :
  ~ (forall (markov : string -> value -> error + string) (bot : Bot) (params : Request)
            (messages : list Document) (seed : string) (lim : value),
        messages <> [] ->
        MarkovChain_generate seed lim ∈ trace (pipeline markov bot params messages) ->
        lim = limit params).
Proof.
  intros H.
  specialize (H markov0 bot0 request0 [doc0 "a"] "a" (VNum 150)).
  assert (VNum 150 = limit request0) as Heq; [|discriminate Heq].
  apply H; [discriminate|].
  apply list_elem_of_In. right. left. reflexivity.
Qed.

(** C5, as the code has it. With a non-empty result the generator is called,
    and the bound of every generator call is the limit of the bot's
    configuration, whatever the limit of the request; the limit of the request
    is the one given to the find. *)
Theorem generator_bound_is_configured_limit
    (markov : string -> value -> error + string) (bot : Bot) (params : Request)
    (messages : list Document) :
  messages <> [] ->
  (exists seed,
      MarkovChain_generate seed (get (config bot) "limit")
        ∈ trace (pipeline markov bot params messages))
  /\ (forall seed lim,
        MarkovChain_generate seed lim ∈ trace (pipeline markov bot params messages) ->
        lim = get (config bot) "limit")
  /\ (forall usr lim k,
        Message_find usr lim k ∈ trace (pipeline markov bot params messages) ->
        lim = limit params).
Proof.
  intros Hne.
  rewrite pipeline_unfold, (generate_resolved_nonempty markov bot params messages Hne).
  split; [|split].
  - exists (join " " (map doc_text messages)). apply list_elem_of_In.
    destruct (markov _ _); simpl; auto.
  - intros seed lim Hin. apply list_elem_of_In in Hin.
    destruct (markov _ _); simpl in Hin;
      repeat (destruct Hin as [Hin|Hin]; [by inversion Hin|]); destruct Hin.
  - intros usr lim k Hin. apply list_elem_of_In in Hin.
    destruct (markov _ _); simpl in Hin;
      repeat (destruct Hin as [Hin|Hin]; [by inversion Hin|]); destruct Hin.
Qed.

Lemma generator_bound_is_configured_limit_witness :
  MarkovChain_generate "a" (VNum 150) ∈ trace (pipeline markov0 bot0 request0 [doc0 "a"])
  /\ (VNum 150 : value) = get (config bot0) "limit".
Proof.
  assert (MarkovChain_generate "a" (VNum 150)
            ∈ trace (pipeline markov0 bot0 request0 [doc0 "a"])) as Hin.
  { apply list_elem_of_In. right. left. reflexivity. }
  split; [exact Hin|].
  apply (proj1 (proj2 (generator_bound_is_configured_limit markov0 bot0 request0 [doc0 "a"]
                         ltac:(discriminate))) "a" (VNum 150) Hin).
Defined.

(** ** C8: a failed insert *)

Lemma with_text_event_of (msg : Message) : with_text (event_of msg) (msg_text msg) = msg.
Proof. by destruct msg. Qed.

Lemma MESSAGE_listener_event_of (bot : Bot) (msg : Message) :
  MESSAGE_listener bot (event_of msg) = on_message bot msg.
Proof. unfold MESSAGE_listener. cbn [ev_text event_of]. by rewrite with_text_event_of. Qed.

(** C8 as the specification states it fails, in both halves: the caller of
    [saveMessage] gets no error when the insert fails, and the exception the
    closure of [save] throws ends the process, so that the message that
    follows is not processed. *)
Lemma failed_insert_is_not_returned_and_ends_the_process :
  ~ (forall (msg : Message) (err : value),
        truthy err = true ->
        exists e, fst (ingestion_outcome msg err) = inl e)
  /\ ~ (forall (bot : Bot) (msg : Message) (err : value) (later : list turn),
          truthy err = true ->
          (exists doc k, Message_save doc k ∈ trace (on_message bot msg)) ->
          run_process bot (Inbound (event_of msg) :: Inserted err :: later) =
            (fst (run_process bot later),
             (trace (on_message bot msg) ++ snd (run_process bot later))%list)).
Proof.
  split.
  - intros H.
    destruct (H (message0 "hello there") (VStr "E11000 duplicate key") eq_refl) as [e He].
    discriminate He.
  - intros H.
    specialize (H bot0 (message0 "hello there") (VStr "E11000 duplicate key")
                  [Inbound (event_of (message0 "and again"))] eq_refl).
    assert (exists doc k,
               Message_save doc k ∈ trace (on_message bot0 (message0 "hello there"))) as Hex.
    { exists (new_Message (message0 "hello there")), save_callback.
      apply list_elem_of_In. left. reflexivity. }
    specialize (H Hex). vm_compute in H. discriminate H.
Qed.

(** C8, as the code has it. [saveMessage] requests the insert and returns
    normally to its caller, which is the message handler, and the handler
    returns normally whenever it has requested a save. The outcome of the
    insert reaches only the closure given to [save]: run with an error it
    throws [Error] of it, run with [null] it returns. Nothing catches what the
    closure throws: after a failed insert the process has exited and no later
    turn is run, whereas after a successful insert the later turns run. *)
Theorem failed_insert_throws_in_callback
    (markov : string -> value -> error + string) (bot : Bot) (msg : Message) (err : value) :
  truthy err = true ->
  saveMessage msg = ([Message_save (new_Message msg) save_callback], inr tt)
  /\ ingestion_outcome msg err = (inr tt, inl (Error err))
  /\ ingestion_outcome msg VNull = (inr tt, inr VUndefined)
  /\ run_callback markov bot save_callback (Saved err) = ([], inl (Error err))
  /\ run_callback markov bot save_callback (Saved VNull) = ([], inr VUndefined)
  /\ (forall doc k, Message_save doc k ∈ trace (on_message bot msg) ->
      k = save_callback /\ result (on_message bot msg) = inr tt)
  /\ (forall doc k later, Message_save doc k ∈ trace (on_message bot msg) ->
      run_process bot (Inbound (event_of msg) :: Inserted err :: later) =
        (Exited (Error err), [Message_save (new_Message msg) save_callback])
      /\ run_process bot (Inbound (event_of msg) :: Inserted VNull :: later) =
          (fst (run_process bot later),
           Message_save (new_Message msg) save_callback :: snd (run_process bot later))).
Proof.
  intros Herr.
  split; [reflexivity|].
  split; [unfold ingestion_outcome, saveMessage_callback; by rewrite Herr|].
  split; [reflexivity|].
  split; [unfold run_callback, saveMessage_callback; by rewrite Herr|].
  split; [reflexivity|].
  assert (forall doc k, Message_save doc k ∈ trace (on_message bot msg) ->
            on_message bot msg = ([Message_save (new_Message msg) save_callback], inr tt))
    as Hsave.
  { intros doc k Hin.
    destruct (on_message_save_inv bot msg doc k Hin) as (Hf & Hc & Hw).
    by rewrite (on_message_ingest bot msg Hf Hc), Hw. }
  split.
  - intros doc k Hin. rewrite (Hsave doc k Hin) in Hin |- *.
    apply list_elem_of_In in Hin. destruct Hin as [Hin|[]].
    injection Hin as _ <-. split; reflexivity.
  - intros doc k later Hin. specialize (Hsave doc k Hin).
    cbn [run_process run_turn]. rewrite MESSAGE_listener_event_of, Hsave.
    unfold saveMessage_callback. rewrite Herr. cbn [truthy].
    split; [reflexivity|].
    unfold mbind, M_bind, mret, M_ret, throw. cbn.
    by destruct (run_process bot later).
Qed.

Lemma failed_insert_throws_in_callback_witness :
  result (on_message bot0 (message0 "hello there")) = inr tt
  /\ ingestion_outcome (message0 "hello there") (VStr "E11000")
     = (inr tt, inl (Error (VStr "E11000")))
  /\ run_process bot0 [Inbound (event_of (message0 "hello there")); Inserted (VStr "E11000");
                       Inbound (event_of (message0 "and again"))]
     = (Exited (Error (VStr "E11000")),
        [Message_save (new_Message (message0 "hello there")) save_callback]).
Proof.
  pose proof (failed_insert_throws_in_callback markov0 bot0 (message0 "hello there")
                (VStr "E11000") eq_refl)
    as (_ & Hout & _ & _ & _ & Hsave & Hrun).
  assert (Message_save (new_Message (message0 "hello there")) save_callback
            ∈ trace (on_message bot0 (message0 "hello there"))) as Hin.
  { apply list_elem_of_In. left. reflexivity. }
  split; [exact (proj2 (Hsave _ _ Hin))|]. split; [exact Hout|].
  exact (proj1 (Hrun _ _ [Inbound (event_of (message0 "and again"))] Hin)).
Defined.

(** ** C9: the default configuration is shared and written *)

Lemma new_Bot_heap (cfg : object) (h : heap) :
  fst (new_Bot cfg h) = <[defaultConfig := cfg ∪ deref h defaultConfig]> h.
Proof. unfold new_Bot, Object_assign. by destruct (check_config cfg). Qed.

Lemma new_Bot_ref (cfg : object) (h : heap) (b : BotObject) :
  snd (new_Bot cfg h) = inr b -> config_ref b = defaultConfig.
Proof.
  unfold new_Bot, Object_assign. destruct (check_config cfg); simpl; [discriminate|].
  by intros [= <-].
Qed.

Lemma deref_new_Bot (cfg : object) (h : heap) :
  deref (fst (new_Bot cfg h)) defaultConfig = cfg ∪ deref h defaultConfig.
Proof. rewrite new_Bot_heap. unfold deref at 1. by rewrite lookup_insert_eq. Qed.

(** The older variant copies into a fresh object: a configuration without a
    limit gets 150, whatever was constructed before. *)
Lemma BasicBot_new_Bot_limit (cfg : object) (h : heap) (b : BotObject) :
  cfg !! "limit" = None ->
  snd (BasicBot.new_Bot cfg h) = inr b ->
  deref (fst (BasicBot.new_Bot cfg h)) (config_ref b) !! "limit" = Some (VNum 150).
Proof.
  unfold BasicBot.new_Bot, Object_assign. intros Hl.
  destruct (check_config cfg); simpl; [discriminate|]. intros [= <-]. simpl.
  unfold deref. rewrite !lookup_insert_eq. simpl.
  rewrite lookup_union_r by exact Hl. by rewrite lookup_insert_eq.
Qed.

(** *** The whole constructor *)

Lemma construct_objects (new_bot : object -> heap -> heap * (error + BotObject))
    (cfg : object) (p : process) :
  objects (fst (construct new_bot cfg p)) = fst (new_bot cfg (objects p)).
Proof.
  unfold construct, _db, collections_Message, mongoose_model.
  destruct (new_bot cfg (objects p)) as [h' [e|b]]; [reflexivity|].
  cbn [models]. by destruct (bool_decide _).
Qed.

Lemma construct_result (new_bot : object -> heap -> heap * (error + BotObject))
    (cfg : object) (p : process) :
  snd (construct new_bot cfg p) =
    match snd (new_bot cfg (objects p)) with
    | inl e => inl e
    | inr b =>
        if bool_decide ("Message" ∈ models p) then inl (OverwriteModelError "Message")
        else inr b
    end.
Proof.
  unfold construct, _db, collections_Message, mongoose_model.
  destruct (new_bot cfg (objects p)) as [h' [e|b]]; [reflexivity|].
  cbn [models snd]. by destruct (bool_decide _).
Qed.

(** A constructor that returns a bot has compiled the model. *)
Lemma construct_registers (new_bot : object -> heap -> heap * (error + BotObject))
    (cfg : object) (p : process) (b : BotObject) :
  snd (construct new_bot cfg p) = inr b ->
  "Message" ∈ models (fst (construct new_bot cfg p)).
Proof.
  unfold construct, _db, collections_Message, mongoose_model.
  destruct (new_bot cfg (objects p)) as [h' [e|b']]; [discriminate|].
  cbn [models]. destruct (bool_decide _); [discriminate|].
  intros _. cbn [fst models]. set_solver.
Qed.

(** After a constructor has returned a bot, the next one does not return. *)
Lemma construct_after_a_bot (new_bot : object -> heap -> heap * (error + BotObject))
    (c1 c2 : object) (p : process) (b1 : BotObject) :
  snd (construct new_bot c1 p) = inr b1 ->
  exists e, snd (construct new_bot c2 (fst (construct new_bot c1 p))) = inl e
            /\ ((exists b, snd (new_bot c2 (objects (fst (construct new_bot c1 p)))) = inr b) ->
                e = OverwriteModelError "Message").
Proof.
  intros H1. apply construct_registers in H1.
  rewrite construct_result.
  destruct (snd (new_bot c2 _)) as [e|b]; [exists e; split; [reflexivity|]|].
  - intros [b Hb]. discriminate Hb.
  - rewrite bool_decide_eq_true_2 by exact H1. by eexists.
Qed.

Lemma new_Bot_snd (cfg : object) (h : heap) :
  snd (new_Bot cfg h) =
    match check_config cfg with
    | Some e => inl e
    | None => inr {| config_ref := defaultConfig |}
    end.
Proof. unfold new_Bot, Object_assign. by destruct (check_config cfg). Qed.

Lemma Bot_constructor_first (cfg : object) (p : process) :
  check_config cfg = None -> "Message" ∉ models p ->
  snd (Bot_constructor cfg p) = inr {| config_ref := defaultConfig |}.
Proof.
  intros Hc Hm. unfold Bot_constructor. rewrite construct_result, new_Bot_snd, Hc.
  by rewrite bool_decide_eq_false_2.
Qed.

Lemma Bot_constructor_ref (cfg : object) (p : process) (b : BotObject) :
  snd (Bot_constructor cfg p) = inr b -> config_ref b = defaultConfig.
Proof.
  unfold Bot_constructor. rewrite construct_result, new_Bot_snd.
  destruct (check_config cfg); [discriminate|].
  destruct (bool_decide _); [discriminate|]. by intros [= <-].
Qed.

Lemma deref_Bot_constructor (cfg : object) (p : process) :
  deref (objects (fst (Bot_constructor cfg p))) defaultConfig
    = cfg ∪ deref (objects p) defaultConfig.
Proof. unfold Bot_constructor. by rewrite construct_objects, deref_new_Bot. Qed.

(** C9 as the specification states it fails: after a bot has been built from
    [team1], the constructor called with [team2] does not return a second bot;
    [_db] compiles the model of the collection again and mongoose throws. *)
Lemma second_bot_is_not_constructed :
  ~ (forall (p : process) (c1 c2 : object) (f : string) (v : value),
        "Message" ∉ models p ->
        check_config c1 = None -> check_config c2 = None ->
        c1 !! f = Some v -> c2 !! f = None ->
        exists b1 b2,
          snd (Bot_constructor c1 p) = inr b1
          /\ snd (Bot_constructor c2 (fst (Bot_constructor c1 p))) = inr b2
          /\ get (deref (objects (fst (Bot_constructor c2 (fst (Bot_constructor c1 p)))))
                    (config_ref b2)) f = v).
Proof.
  intros H.
  destruct (H (initial_process VNull) team1 team2 "limit" (VNum 42))
    as (b1 & b2 & Hb1 & Hb2 & _); try reflexivity.
  { cbn [models initial_process]. set_solver. }
  destruct (construct_after_a_bot new_Bot team1 team2 (initial_process VNull) b1 Hb1)
    as (e & He & _).
  unfold Bot_constructor in Hb2. rewrite He in Hb2. discriminate Hb2.
Qed.

(** C9, as the code has it. A call of the constructor with [c1] writes every
    field of [c1] into the object exported by [config/default.js], whether it
    returns a bot or throws, and the [config] of a bot it returns is that one
    object. After a later call with a [c2] that omits a field of [c1], the
    shared object still holds the value of [c1] for that field, and a bot that
    this later call returns reads it: for [limit], not the 150 the module
    started with. *)
Theorem Bot_constructor_writes_defaultConfig (p : process) (c1 c2 : object) :
  let p1 := fst (Bot_constructor c1 p) in
  let p2 := fst (Bot_constructor c2 p1) in
  (forall f v, c1 !! f = Some v -> deref (objects p1) defaultConfig !! f = Some v)
  /\ (forall b, snd (Bot_constructor c1 p) = inr b -> config_ref b = defaultConfig)
  /\ (forall f v, c1 !! f = Some v -> c2 !! f = None ->
        deref (objects p2) defaultConfig !! f = Some v)
  /\ (forall f v b2 self_name self_id,
        c1 !! f = Some v -> c2 !! f = None ->
        snd (Bot_constructor c2 p1) = inr b2 ->
        config (this (objects p2) b2 self_name self_id) !! f = Some v)
  /\ (forall v b2 self_name self_id,
        c1 !! "limit" = Some v -> c2 !! "limit" = None ->
        snd (Bot_constructor c2 p1) = inr b2 ->
        get (config (this (objects p2) b2 self_name self_id)) "limit" = v).
Proof.
  intros p1 p2.
  assert (forall f v, c1 !! f = Some v -> c2 !! f = None ->
            deref (objects p2) defaultConfig !! f = Some v) as Hshared.
  { intros f v H1 H2. subst p2 p1. rewrite !deref_Bot_constructor.
    rewrite lookup_union_r by exact H2. by apply lookup_union_Some_l. }
  assert (forall f v b2 self_name self_id,
             c1 !! f = Some v -> c2 !! f = None ->
             snd (Bot_constructor c2 p1) = inr b2 ->
             config (this (objects p2) b2 self_name self_id) !! f = Some v) as Hread.
  { intros f v b2 self_name self_id H1 H2 Hb. cbn [config this].
    rewrite (Bot_constructor_ref c2 p1 b2 Hb). by apply Hshared. }
  split; [|split; [|split; [|split]]].
  - intros f v Hf. subst p1. rewrite deref_Bot_constructor. by apply lookup_union_Some_l.
  - intros b. apply Bot_constructor_ref.
  - exact Hshared.
  - exact Hread.
  - intros v b2 self_name self_id H1 H2 Hb. unfold get.
    by rewrite (Hread "limit" v b2 self_name self_id H1 H2 Hb).
Qed.

Lemma Bot_constructor_writes_defaultConfig_witness :
  get (deref (objects (initial_process VNull)) defaultConfig) "limit" = VNum 150
  /\ snd (Bot_constructor team0 (initial_process VNull)) = inl (missing "token")
  /\ get (config (this (objects (fst (Bot_constructor team2
                                        (fst (Bot_constructor team0 (initial_process VNull))))))
                     {| config_ref := defaultConfig |} None None)) "limit" = VNum 42
  /\ deref (objects (fst (Bot_constructor team2
                            (fst (Bot_constructor team1 (initial_process VNull))))))
       defaultConfig !! "limit" = Some (VNum 42).
Proof.
  split; [reflexivity|].
  split; [unfold Bot_constructor; by rewrite construct_result, new_Bot_snd|].
  split.
  - apply (proj2 (proj2 (proj2 (proj2
             (Bot_constructor_writes_defaultConfig (initial_process VNull) team0 team2))))
             (VNum 42) {| config_ref := defaultConfig |} None None);
      [reflexivity|reflexivity|].
    apply Bot_constructor_first; [reflexivity|].
    unfold Bot_constructor. intros Hin.
    assert (models (fst (construct new_Bot team0 (initial_process VNull))) = ∅) as Hm.
    { unfold construct. by rewrite (surjective_pairing (new_Bot team0 _)), new_Bot_snd. }
    rewrite Hm in Hin. set_solver.
  - apply (proj1 (proj2 (proj2
             (Bot_constructor_writes_defaultConfig (initial_process VNull) team1 team2))));
      reflexivity.
Defined.

(** The bots share one object: what a later constructor writes is read
    through the [config] of the bot built first. *)
Lemma earlier_bot_reads_later_config (h : heap) (c1 c2 : object) (b1 : BotObject)
    (f : string) (v : value) :
  snd (new_Bot c1 h) = inr b1 ->
  c2 !! f = Some v ->
  deref (fst (new_Bot c2 (fst (new_Bot c1 h)))) (config_ref b1) !! f = Some v.
Proof.
  intros Hb1 Hf. rewrite (new_Bot_ref c1 h b1 Hb1), deref_new_Bot.
  by apply lookup_union_Some_l.
Qed.

(** * Further properties of the code *)

(** ** Strings *)

Lemma append_cons (x : ascii) (a b : string) : String x a +:+ b = String x (a +:+ b).
Proof. reflexivity. Qed.

Lemma append_assoc (a b c : string) : (a +:+ b) +:+ c = a +:+ (b +:+ c).
Proof.
  induction a as [|x a IH]; [reflexivity|]. rewrite !append_cons. by rewrite IH.
Qed.

Lemma append_empty_r (a : string) : a +:+ "" = a.
Proof. induction a as [|x a IH]; [reflexivity|]. rewrite append_cons. by rewrite IH. Qed.

Lemma append_id_r (a b : string) : a +:+ b = a -> b = "".
Proof.
  induction a as [|x a IH]; [done|]. rewrite append_cons. intros [= H]. by apply IH.
Qed.

Lemma strip_non_alnum_cons (x : ascii) (s : string) :
  strip_non_alnum (String x s) =
    if is_alnum x then String x (strip_non_alnum s) else strip_non_alnum s.
Proof. reflexivity. Qed.

Lemma starts_with_cons (x y : ascii) (p s : string) :
  starts_with (String x p) (String y s) = Ascii.eqb x y && starts_with p s.
Proof. reflexivity. Qed.

Lemma strip_non_alnum_app (a b : string) :
  strip_non_alnum (a +:+ b) = strip_non_alnum a +:+ strip_non_alnum b.
Proof.
  induction a as [|x a IH]; [reflexivity|].
  rewrite append_cons, !strip_non_alnum_cons, IH. by destruct (is_alnum x).
Qed.

Lemma strip_non_alnum_all_alnum (s : string) :
  all_alnum s = true -> strip_non_alnum s = s.
Proof.
  induction s as [|x s IH]; [reflexivity|]. cbn [all_alnum].
  rewrite strip_non_alnum_cons. intros [-> Hs]%andb_true_iff. by rewrite IH.
Qed.

Lemma strip_non_alnum_no_alnum (s : string) :
  no_alnum s = true -> strip_non_alnum s = "".
Proof.
  induction s as [|x s IH]; [reflexivity|]. cbn [no_alnum].
  rewrite strip_non_alnum_cons.
  intros [Hx Hs]%andb_true_iff. apply negb_true_iff in Hx. rewrite Hx. by apply IH.
Qed.

Lemma all_alnum_strip (s : string) : all_alnum (strip_non_alnum s) = true.
Proof.
  induction s as [|x s IH]; [reflexivity|]. rewrite strip_non_alnum_cons.
  destruct (is_alnum x) eqn:E; [|exact IH]. cbn [all_alnum]. by rewrite E.
Qed.

Lemma starts_with_app (p s : string) : starts_with p (p +:+ s) = true.
Proof.
  induction p as [|x p IH]; [reflexivity|].
  rewrite append_cons, starts_with_cons. by rewrite Ascii.eqb_refl, IH.
Qed.

Lemma starts_with_not_me (t : string) : starts_with "<@" t = true -> t <> "me".
Proof. intros H ->. discriminate H. Qed.

(** ** The mention parser beyond the "me" form *)

Lemma _isCalled_None (bot : Bot) (msg : Message) :
  split (msg_text msg) !! 0%nat <> Some (mention bot)
  \/ split (msg_text msg) !! 1%nat = None
  \/ split (msg_text msg) !! 1%nat = Some "" ->
  _isCalled bot msg = None.
Proof.
  rewrite _isCalled_tokens.
  destruct (split (msg_text msg)) as [|t0 [|t1 rest]]; simpl; try reflexivity.
  intros [H|[H|H]].
  - destruct (String.eqb_spec t0 (mention bot)) as [->|]; [contradiction|].
    by rewrite andb_false_r.
  - discriminate H.
  - injection H as ->. reflexivity.
Qed.

Lemma getMsgTag_other (bot : Bot) (msg : Message) (t1 : string) (rest : list string) :
  split (msg_text msg) = mention bot :: t1 :: rest ->
  starts_with "<@" t1 = true -> t1 <> mention bot ->
  getMsgTag bot msg =
    ([], inr (Params {| user := strip_non_alnum t1; channel := msg_channel msg;
                        limit := parseInt_or (rest !! 0%nat) (get (config bot) "limit") |})).
Proof.
  intros E Hs Hne.
  assert (t1 <> "") as Hne0 by (intros ->; discriminate Hs).
  unfold getMsgTag. rewrite (_isCalled_addressed bot msg t1 rest E Hne0), E. simpl.
  destruct (String.eqb_spec t1 "me") as [->|_]; [discriminate Hs|].
  rewrite Hs.
  destruct (String.eqb_spec t1 (mention bot)); [contradiction|reflexivity].
Qed.

Lemma on_message_not_called (bot : Bot) (msg : Message) :
  _isCalled bot msg = None ->
  getMsgTag bot msg = ([], inr False_) /\ _parseCommand bot msg = None.
Proof. intros H. unfold getMsgTag, _parseCommand. by rewrite H. Qed.

Lemma BasicBot_on_message_False (bot : Bot) (msg : Message) :
  getMsgTag bot msg = ([], inr False_) ->
  BasicBot.on_message bot msg = if _warrantsSave msg then saveMessage msg else ([], inr tt).
Proof.
  intros H. unfold BasicBot.on_message. rewrite BasicBot_getMsgTag_eq, H.
  unfold BasicBot.warrentsSave, mbind, M_bind. by destruct (_warrantsSave msg).
Qed.

(** X1. A message whose first token is not the bot's mention, or that has no
    second token or an empty one, is no request and no command for either
    variant: it goes to the ingestion filter, and nothing is sent. *)
Theorem not_addressed_is_ingested (bot : Bot) (msg : Message) :
  split (msg_text msg) !! 0%nat <> Some (mention bot)
  \/ split (msg_text msg) !! 1%nat = None
  \/ split (msg_text msg) !! 1%nat = Some "" ->
  getMsgTag bot msg = ([], inr False_)
  /\ _parseCommand bot msg = None
  /\ on_message bot msg = (if _warrantsSave msg then saveMessage msg else ([], inr tt))
  /\ BasicBot.on_message bot msg = on_message bot msg.
Proof.
  intros H. apply _isCalled_None in H.
  destruct (on_message_not_called bot msg H) as [Hf Hc].
  rewrite (on_message_ingest bot msg Hf Hc), (BasicBot_on_message_False bot msg Hf).
  by repeat split.
Qed.

Lemma not_addressed_is_ingested_witness :
  on_message bot0 (message0 "<@B>") =
    ([Message_save (new_Message (message0 "<@B>")) save_callback], inr tt)
  /\ getMsgTag bot0 (message0 "<@U2> me 10") = ([], inr False_).
Proof.
  split.
  - apply (not_addressed_is_ingested bot0 (message0 "<@B>")). right. left. reflexivity.
  - apply (not_addressed_is_ingested bot0 (message0 "<@U2> me 10")). left. discriminate.
Defined.

(** X2. A message addressed to the bot whose second token is neither "me",
    nor a mention, nor a key of the command table is no request and no
    command: it is ingested like ordinary chat and nothing is sent. *)
Theorem unregistered_keyword_is_ingested (bot : Bot) (msg : Message)
    (t1 : string) (rest : list string) :
  split (msg_text msg) = mention bot :: t1 :: rest ->
  t1 <> "me" -> starts_with "<@" t1 = false -> commands_get t1 = Absent ->
  getMsgTag bot msg = ([], inr False_)
  /\ _parseCommand bot msg = None
  /\ on_message bot msg = (if _warrantsSave msg then saveMessage msg else ([], inr tt)).
Proof.
  intros E Hme Hat Hget.
  assert (getMsgTag bot msg = ([], inr False_) /\ _parseCommand bot msg = None) as [Hf Hc].
  { destruct (String.eqb_spec t1 "") as [->|Hne].
    - apply on_message_not_called, _isCalled_None. rewrite E. right. right. reflexivity.
    - unfold getMsgTag, _parseCommand.
      rewrite (_isCalled_addressed bot msg t1 rest E Hne), E. simpl.
      destruct (String.eqb_spec t1 "me"); [contradiction|].
      by rewrite Hat, Hget. }
  rewrite (on_message_ingest bot msg Hf Hc). by repeat split.
Qed.

Lemma unregistered_keyword_is_ingested_witness :
  on_message bot0 (message0 "<@B> dance -h") =
    ([Message_save (new_Message (message0 "<@B> dance -h")) save_callback], inr tt).
Proof.
  apply (unregistered_keyword_is_ingested bot0 (message0 "<@B> dance -h") "dance" ["-h"]);
    [reflexivity|discriminate|reflexivity|reflexivity].
Defined.

(** X3. When the second token begins with "<@" and is not the bot's own
    mention, the request targets what is left of that token once every
    character outside 0-9, a-z, A-Z is removed: for a mention of an
    alphanumeric id followed by any punctuation, the id. The handler then
    issues the find for that user, capped by the request's limit. *)
Theorem other_mention_targets_stripped_id (bot : Bot) (msg : Message)
    (t1 : string) (rest : list string) :
  split (msg_text msg) = mention bot :: t1 :: rest ->
  starts_with "<@" t1 = true -> t1 <> mention bot ->
  exists p,
    getMsgTag bot msg = ([], inr (Params p))
    /\ user p = strip_non_alnum t1
    /\ channel p = msg_channel msg
    /\ limit p = parseInt_or (rest !! 0%nat) (get (config bot) "limit")
    /\ all_alnum (user p) = true
    /\ (forall u punct, t1 = "<@" +:+ u +:+ ">" +:+ punct ->
          all_alnum u = true -> no_alnum punct = true -> user p = u)
    /\ on_message bot msg = ([Message_find (user p) (limit p) (generate_then p)], inr tt).
Proof.
  intros E Hs Hne.
  pose proof (getMsgTag_other bot msg t1 rest E Hs Hne) as Hget.
  eexists. split; [exact Hget|]. cbn [user channel limit].
  do 3 (split; [reflexivity|]).
  split; [apply all_alnum_strip|].
  split; [|exact (on_message_Params bot msg _ Hget)].
  intros u punct -> Hu Hp.
  change ("<@" +:+ u +:+ ">" +:+ punct) with ("<@" +:+ (u +:+ (">" +:+ punct))).
  rewrite !strip_non_alnum_app, (strip_non_alnum_all_alnum u Hu),
    (strip_non_alnum_no_alnum punct Hp).
  change (strip_non_alnum "<@") with "". change (strip_non_alnum ">") with "".
  cbn [append]. apply append_empty_r.
Qed.

Lemma other_mention_targets_stripped_id_witness :
  getMsgTag bot0 (message0 "<@B> <@U2>!? 5") =
    ([], inr (Params {| user := "U2"; channel := "C1"; limit := VNum 5 |})).
Proof.
  destruct (other_mention_targets_stripped_id bot0 (message0 "<@B> <@U2>!? 5") "<@U2>!?" ["5"]
              eq_refl eq_refl ltac:(discriminate))
    as ([u c l] & Hget & Hu & Hc & Hl & _).
  cbn [user channel limit] in Hu, Hc, Hl. subst u c l. exact Hget.
Defined.

(** X4. The self-mention denial compares the whole token: the bot's own
    mention followed by any punctuation is not denied, and the request targets
    the bot's own id. *)
Theorem own_mention_with_suffix_is_not_denied (bot : Bot) (msg : Message)
    (i suf : string) (rest : list string) :
  id bot = Some i -> all_alnum i = true ->
  suf <> "" -> no_alnum suf = true ->
  split (msg_text msg) = mention bot :: (mention bot +:+ suf) :: rest ->
  getMsgTag bot msg =
    ([], inr (Params {| user := i; channel := msg_channel msg;
                        limit := parseInt_or (rest !! 0%nat) (get (config bot) "limit") |}))
  /\ forall e, e ∈ trace (on_message bot msg) -> e <> sendMessage (VStr denial) (msg_channel msg).
Proof.
  intros Hid Hi Hsuf Hp E.
  assert (getMsgTag bot msg =
    ([], inr (Params {| user := i; channel := msg_channel msg;
                        limit := parseInt_or (rest !! 0%nat) (get (config bot) "limit") |})))
    as Hget.
  { rewrite (getMsgTag_other bot msg (mention bot +:+ suf) rest E).
    - do 4 f_equal. unfold mention. rewrite Hid. cbn [ToString].
      rewrite !append_assoc, !strip_non_alnum_app, (strip_non_alnum_all_alnum i Hi),
        (strip_non_alnum_no_alnum suf Hp).
      change (strip_non_alnum "<@") with "". change (strip_non_alnum ">") with "".
      cbn [append]. by rewrite !append_empty_r.
    - unfold mention. rewrite append_assoc. apply starts_with_app.
    - intros H. by apply append_id_r in H. }
  split; [exact Hget|].
  intros e He. rewrite (on_message_Params bot msg _ Hget) in He.
  in_trace He. by subst e.
Qed.

Lemma own_mention_with_suffix_is_not_denied_witness :
  getMsgTag bot0 (message0 "<@B> <@B>!") =
    ([], inr (Params {| user := "B"; channel := "C1"; limit := VNum 150 |})).
Proof.
  apply (own_mention_with_suffix_is_not_denied bot0 (message0 "<@B> <@B>!") "B" "!" []);
    [reflexivity|reflexivity|discriminate|reflexivity|reflexivity].
Defined.

(** ** Requests and their limit *)

Lemma getMsgTag_Params_inv (bot : Bot) (msg : Message) (p : Request) :
  result (getMsgTag bot msg) = inr (Params p) ->
  exists t1 rest,
    split (msg_text msg) = mention bot :: t1 :: rest
    /\ (t1 = "me" /\ user p = msg_user msg
        \/ starts_with "<@" t1 = true /\ t1 <> mention bot /\ user p = strip_non_alnum t1)
    /\ channel p = msg_channel msg
    /\ limit p = parseInt_or (rest !! 0%nat) (get (config bot) "limit").
Proof.
  unfold getMsgTag.
  destruct (_isCalled bot msg) as [msgArr|] eqn:E; [|discriminate].
  apply _isCalled_Some in E as (t1 & rest & Hs & Hne & ->).
  rewrite Hs. simpl. intros H. exists t1, rest. split; [reflexivity|].
  destruct (String.eqb_spec t1 "me") as [->|_].
  { injection H as <-. split; [left|]; by repeat split. }
  destruct (starts_with "<@" t1) eqn:Hat; [|discriminate H].
  destruct (String.eqb_spec t1 (mention bot)) as [->|Hm]; [discriminate H|].
  injection H as <-. split; [right|]; by repeat split.
Qed.

Lemma parseInt_or_cases (x : option string) (d : value) :
  parseInt_or x d = d \/ exists z, z <> 0 /\ parseInt x = Some z /\ parseInt_or x d = VNum z.
Proof.
  unfold parseInt_or. destruct (parseInt x) as [z|]; [|by left].
  destruct (Z.eqb_spec z 0); [by left|right; by exists z].
Qed.

(** X5. A message is never both a request and a command: when [getMsgTag]
    returns an object or [null], [_parseCommand] returns [false], and when
    [_parseCommand] resolves a command, [getMsgTag] has returned [false] and
    sent nothing. The handler's branches therefore do not compete. *)
Theorem request_and_command_exclude_each_other (bot : Bot) (msg : Message) :
  (result (getMsgTag bot msg) <> inr False_ -> _parseCommand bot msg = None)
  /\ (forall p, result (getMsgTag bot msg) = inr (Params p) ->
        on_message bot msg = ([Message_find (user p) (limit p) (generate_then p)], inr tt))
  /\ (forall c, _parseCommand bot msg = Some c ->
        getMsgTag bot msg = ([], inr False_)
        /\ on_message bot msg = _exec (cmd_method c) msg (args c)).
Proof.
  split; [|split].
  - intros Hne. destruct (_parseCommand bot msg) as [c|] eqn:Hc; [|reflexivity].
    rewrite (getMsgTag_command bot msg c Hc) in Hne. contradiction.
  - intros p Hp. apply on_message_Params.
    destruct (getMsgTag_cases bot msg) as [(q & Hq)|[(Hn & _)|Hf]].
    + rewrite Hq in Hp |- *. by injection Hp as ->.
    + rewrite Hn in Hp. discriminate Hp.
    + rewrite Hf in Hp. discriminate Hp.
  - intros c Hc. pose proof (getMsgTag_command bot msg c Hc) as Hf.
    split; [exact Hf|]. by apply on_message_command.
Qed.

Lemma request_and_command_exclude_each_other_witness :
  _parseCommand bot0 (message0 "<@B> me purge") = None
  /\ getMsgTag bot0 (message0 "<@B> purge me") = ([], inr False_).
Proof.
  split.
  - apply (proj1 (request_and_command_exclude_each_other bot0 (message0 "<@B> me purge"))).
    discriminate.
  - apply (proj2 (proj2 (request_and_command_exclude_each_other bot0 (message0 "<@B> purge me")))
             {| cmd_method := VStr "_purge";
                cmd_description := VStr "Purges all of a user's messages from the database";
                args := ["me"] |}).
    reflexivity.
Defined.

(** X6. Every request [getMsgTag] returns is for the message's channel; its
    user is the author or a string of alphanumeric characters; its limit is
    the configured limit or a number that is not zero. *)
Theorem request_is_well_formed (bot : Bot) (msg : Message) (p : Request) :
  result (getMsgTag bot msg) = inr (Params p) ->
  channel p = msg_channel msg
  /\ (user p = msg_user msg \/ all_alnum (user p) = true)
  /\ (limit p = get (config bot) "limit" \/ exists z, z <> 0 /\ limit p = VNum z)
  /\ trace (getMsgTag bot msg) = [].
Proof.
  intros H. pose proof H as (t1 & rest & _ & Hu & Hc & Hl)%getMsgTag_Params_inv.
  split; [exact Hc|]. split; [|split].
  - destruct Hu as [[_ Hu]|(_ & _ & Hu)]; [by left|right]. rewrite Hu. apply all_alnum_strip.
  - rewrite Hl. destruct (parseInt_or_cases (rest !! 0%nat) (get (config bot) "limit"))
      as [->|(z & Hz & _ & ->)]; [by left|right; by exists z].
  - destruct (getMsgTag_cases bot msg) as [(q & ->)|[(Hn & _)| ->]]; [reflexivity| |reflexivity].
    rewrite Hn in H. discriminate H.
Qed.

Lemma request_is_well_formed_witness :
  let p := {| user := "U2"; channel := "C1"; limit := VNum 5 |} in
  channel p = "C1"
  /\ (user p = "U1" \/ all_alnum (user p) = true)
  /\ (limit p = get (config bot0) "limit" \/ exists z, z <> 0 /\ limit p = VNum z)
  /\ trace (getMsgTag bot0 (message0 "<@B> <@U2>! 5")) = [].
Proof.
  apply (request_is_well_formed bot0 (message0 "<@B> <@U2>! 5")
           {| user := "U2"; channel := "C1"; limit := VNum 5 |}).
  reflexivity.
Defined.

(** *** What [parseInt] reads from token 2 *)

Lemma not_digit_stops (c : ascii) :
  is_digit c = false ->
  match digit_value c with Some d => d <? 10 | None => false end = false.
Proof. destruct c as [[] [] [] [] [] [] [] []]; vm_compute; congruence. Qed.

Lemma radix_prefix_app_decimal (t s : string) :
  all_digits t = true -> no_leading_digit s = true ->
  radix_prefix 10 (t +:+ s) = radix_prefix 10 t.
Proof.
  intros Ht Hs. induction t as [|x t IH].
  - destruct s as [|c s]; [reflexivity|].
    change ("" +:+ String c s) with (String c s). cbn [radix_prefix].
    simpl in Hs. apply negb_true_iff, not_digit_stops in Hs.
    destruct (digit_value c); [by rewrite Hs|reflexivity].
  - rewrite append_cons. cbn [radix_prefix].
    simpl in Ht. apply andb_true_iff in Ht as [Hx Ht].
    destruct (is_digit_facts x Hx) as (_ & _ & _ & _ & _ & -> & Hlt).
    apply Z.ltb_lt in Hlt. rewrite Hlt. by rewrite IH.
Qed.

Lemma zero_digit (c : ascii) :
  is_digit c = true -> Z.of_N (code c) - 48 <> 0 -> Ascii.eqb c "0" = false.
Proof.
  intros _ H. destruct (Ascii.eqb_spec c "0") as [->|]; [|reflexivity].
  exfalso. apply H. reflexivity.
Qed.

(** The digits of [t], read after the sign has been taken off. *)
Lemma parse_body_decimal_prefix (sign : Z) (t s : string) :
  is_decimal t = true -> spec_base10 t <> 0 -> no_leading_digit s = true ->
  (let '(R, s2) := strip_hex_prefix (t +:+ s) in
   match radix_prefix R s2 with
   | [] => None
   | ds => Some (sign * nearest_double (mathInt R ds))
   end) = Some (sign * nearest_double (spec_base10 t)).
Proof.
  intros Ht Hv Hs.
  destruct t as [|c t]; [discriminate|]. pose proof Ht as Hall.
  simpl in Ht. apply andb_true_iff in Ht as [Hc Ht].
  assert (strip_hex_prefix (String c t +:+ s) = (10, String c t +:+ s)) as ->.
  { rewrite append_cons. destruct t as [|x r].
    - cbn [append]. destruct s as [|y s']; [reflexivity|]. cbn [strip_hex_prefix].
      rewrite (zero_digit c Hc); [reflexivity|].
      intros H0. apply Hv. unfold spec_base10. simpl. lia.
    - rewrite append_cons. cbn [strip_hex_prefix].
      simpl in Ht. apply andb_true_iff in Ht as [Hx _].
      destruct (is_digit_facts x Hx) as (_ & _ & _ & -> & -> & _).
      by rewrite andb_false_r. }
  rewrite (radix_prefix_app_decimal (String c t) s Hall Hs).
  pose proof (mathInt_all_digits (String c t) 0 Hall) as Hfold.
  cbn [radix_prefix] in *.
  destruct (is_digit_facts c Hc) as (_ & _ & _ & _ & _ & Hd & Hlt).
  rewrite Hd in *. apply Z.ltb_lt in Hlt. rewrite Hlt in *.
  unfold mathInt. rewrite Hfold. reflexivity.
Qed.

Lemma parseInt_decimal_prefix (t s : string) :
  is_decimal t = true -> spec_base10 t <> 0 -> no_leading_digit s = true ->
  parseInt (Some (t +:+ s)) = Some (nearest_double (spec_base10 t))
  /\ parseInt (Some ("-" +:+ t +:+ s)) = Some (- nearest_double (spec_base10 t))
  /\ parseInt (Some ("+" +:+ t +:+ s)) = Some (nearest_double (spec_base10 t)).
Proof.
  intros Ht Hv Hs.
  pose proof (parse_body_decimal_prefix 1 t s Ht Hv Hs) as H1.
  pose proof (parse_body_decimal_prefix (-1) t s Ht Hv Hs) as Hm.
  split; [|split].
  - destruct t as [|c t]; [discriminate|].
    simpl in Ht. apply andb_true_iff in Ht as [Hc _].
    destruct (is_digit_facts c Hc) as (Hws & Hmi & Hpl & _).
    unfold parseInt. cbn [ToString]. rewrite append_cons in *. cbn [trim_left].
    rewrite Hws. unfold strip_sign. rewrite Hmi, Hpl.
    rewrite H1. f_equal. lia.
  - unfold parseInt. cbn [ToString].
    change ("-" +:+ t +:+ s) with (String "-" (t +:+ s)).
    change (trim_left (String "-" (t +:+ s))) with (String "-" (t +:+ s)).
    change (strip_sign (String "-" (t +:+ s))) with (-1, t +:+ s).
    cbv beta iota. rewrite Hm. f_equal.
  - unfold parseInt. cbn [ToString].
    change ("+" +:+ t +:+ s) with (String "+" (t +:+ s)).
    change (trim_left (String "+" (t +:+ s))) with (String "+" (t +:+ s)).
    change (strip_sign (String "+" (t +:+ s))) with (1, t +:+ s).
    cbv beta iota. rewrite H1. f_equal. lia.
Qed.

Lemma parseInt_or_nonzero (x : option string) (d : value) (z : Z) :
  parseInt x = Some z -> z <> 0 -> parseInt_or x d = VNum z.
Proof. intros H Hz. unfold parseInt_or. rewrite H. apply Z.eqb_neq in Hz. by rewrite Hz. Qed.

(** X7. Token 2 is read up to its first character that is no digit: when it
    begins with decimal digits of non-zero value, the limit of the request is
    the double nearest to that value, whatever follows the digits: the value
    itself below 2^53. *)
Theorem limit_ignores_text_after_digits (bot : Bot) (msg : Message) (p : Request)
    (t s : string) :
  result (getMsgTag bot msg) = inr (Params p) ->
  split (msg_text msg) !! 2%nat = Some (t +:+ s) ->
  is_decimal t = true -> spec_base10 t <> 0 -> no_leading_digit s = true ->
  limit p = VNum (nearest_double (spec_base10 t))
  /\ (spec_base10 t < 2 ^ 53 -> limit p = VNum (spec_base10 t)).
Proof.
  intros (t1 & rest & E & _ & _ & ->)%getMsgTag_Params_inv Htok Ht Hv Hs.
  rewrite E in Htok. simpl in Htok. rewrite Htok.
  assert (parseInt_or (Some (t +:+ s)) (get (config bot) "limit")
          = VNum (nearest_double (spec_base10 t))) as ->.
  { apply parseInt_or_nonzero; [by apply parseInt_decimal_prefix|].
    apply nearest_double_nonzero; [by apply spec_base10_nonneg|exact Hv]. }
  split; [reflexivity|]. intros Hsmall. by rewrite nearest_double_small.
Qed.

Lemma limit_ignores_text_after_digits_witness :
  limit {| user := "U1"; channel := "C1"; limit := VNum 10 |} = VNum (spec_base10 "10").
Proof.
  apply (limit_ignores_text_after_digits bot0 (message0 "<@B> me 10messages,please")
           {| user := "U1"; channel := "C1"; limit := VNum 10 |} "10" "messages,please");
    [reflexivity|reflexivity|reflexivity|discriminate|reflexivity|reflexivity].
Defined.

(** X8. The limit is not kept positive: a token 2 made of a minus sign and
    decimal digits of non-zero value gives the request a negative limit, the
    opposite of the double nearest to the digits' value (of the value itself
    below 2^53), and that is what the find is capped with. *)
Theorem limit_can_be_negative (bot : Bot) (msg : Message) (p : Request) (t s : string) :
  result (getMsgTag bot msg) = inr (Params p) ->
  split (msg_text msg) !! 2%nat = Some ("-" +:+ t +:+ s) ->
  is_decimal t = true -> spec_base10 t <> 0 -> no_leading_digit s = true ->
  limit p = VNum (- nearest_double (spec_base10 t))
  /\ - nearest_double (spec_base10 t) < 0
  /\ on_message bot msg =
       ([Message_find (user p) (VNum (- nearest_double (spec_base10 t))) (generate_then p)],
        inr tt)
  /\ (spec_base10 t < 2 ^ 53 -> limit p = VNum (- spec_base10 t)).
Proof.
  intros Hp Htok Ht Hv Hs.
  pose proof Hp as (t1 & rest & E & _ & _ & Hl)%getMsgTag_Params_inv.
  rewrite E in Htok. simpl in Htok. rewrite Htok in Hl.
  assert (0 < nearest_double (spec_base10 t)) as Hpos.
  { apply nearest_double_pos. pose proof (spec_base10_nonneg t Ht). lia. }
  assert (limit p = VNum (- nearest_double (spec_base10 t))) as Hlim.
  { rewrite Hl. apply parseInt_or_nonzero; [by apply parseInt_decimal_prefix|lia]. }
  split; [exact Hlim|]. split; [lia|]. split.
  - rewrite <- Hlim. apply on_message_Params.
    destruct (getMsgTag_cases bot msg) as [(q & Hq)|[(Hn & _)|Hf]].
    + rewrite Hq in Hp |- *. by injection Hp as ->.
    + rewrite Hn in Hp. discriminate Hp.
    + rewrite Hf in Hp. discriminate Hp.
  - intros Hsmall. by rewrite Hlim, nearest_double_small.
Qed.

Lemma limit_can_be_negative_witness :
  on_message bot0 (message0 "<@B> me -5") =
    ([Message_find "U1" (VNum (-5))
        (generate_then {| user := "U1"; channel := "C1"; limit := VNum (-5) |})], inr tt).
Proof.
  apply (limit_can_be_negative bot0 (message0 "<@B> me -5")
           {| user := "U1"; channel := "C1"; limit := VNum (-5) |} "5" "");
    [reflexivity|reflexivity|reflexivity|discriminate|reflexivity].
Defined.

(** ** The command dispatcher *)

Lemma commands_get_Own (k : string) (c : CommandEntry) :
  commands_get k = Own c ->
  assoc k _commands = Some c /\ (method c = "_purge" \/ method c = "_help") /\ k <> "".
Proof.
  unfold commands_get. destruct (assoc k _commands) as [c'|] eqn:E.
  - intros [= <-]. split; [reflexivity|]. revert E. unfold _commands, assoc.
    destruct (String.eqb_spec k "purge") as [->|_]; [intros [= <-]; split; [by left|done]|].
    destruct (String.eqb_spec k "help") as [->|_]; [intros [= <-]; split; [by right|done]|].
    discriminate.
  - destruct (includes k Object_prototype_keys); discriminate.
Qed.

Lemma commands_get_Inherited (k : string) :
  commands_get k = Inherited <-> includes k Object_prototype_keys = true.
Proof.
  split.
  - unfold commands_get. destruct (assoc k _commands); [discriminate|].
    by destruct (includes k Object_prototype_keys).
  - intros H. apply includes_In in H. simpl in H.
    repeat (destruct H as [<-|H]; [reflexivity|]). destruct H.
Qed.

Lemma _parseCommand_addressed (bot : Bot) (msg : Message) (t1 : string) (rest : list string) :
  split (msg_text msg) = mention bot :: t1 :: rest -> t1 <> "" ->
  commands_get t1 <> Absent ->
  _parseCommand bot msg =
    Some {| cmd_method := property_method (commands_get t1);
            cmd_description := property_description (commands_get t1);
            args := rest |}.
Proof.
  intros E Hne Hget. unfold _parseCommand.
  rewrite (_isCalled_addressed bot msg t1 rest E Hne). simpl.
  by destruct (commands_get t1).
Qed.

Lemma no_help_flag_false (arr : list string) :
  no_help_flag arr -> includes "-h" arr || includes "--help" arr = false.
Proof. intros [-> ->]. reflexivity. Qed.

(** X9. Every keyword of the command table resolves to its own entry: for a
    message addressed to the bot whose second token is a registered keyword,
    [_parseCommand] returns the method and the description registered for that
    keyword, with the tokens after the keyword, in order, as arguments, and
    the mention parser returns [false]. *)
Theorem registered_keyword_resolves (bot : Bot) (msg : Message)
    (k : string) (c : CommandEntry) (rest : list string) :
  assoc k _commands = Some c ->
  split (msg_text msg) = mention bot :: k :: rest ->
  _parseCommand bot msg =
    Some {| cmd_method := VStr (method c); cmd_description := VStr (description c);
            args := rest |}
  /\ getMsgTag bot msg = ([], inr False_)
  /\ on_message bot msg = _exec (VStr (method c)) msg rest.
Proof.
  intros Hk E.
  assert (commands_get k = Own c) as Hget by (unfold commands_get; by rewrite Hk).
  destruct (commands_get_Own k c Hget) as (_ & _ & Hne).
  assert (_parseCommand bot msg =
            Some {| cmd_method := VStr (method c); cmd_description := VStr (description c);
                    args := rest |}) as Hc.
  { rewrite (_parseCommand_addressed bot msg k rest E Hne); rewrite Hget; [reflexivity|discriminate]. }
  split; [exact Hc|].
  pose proof (getMsgTag_command bot msg _ Hc) as Hf.
  split; [exact Hf|]. exact (on_message_command bot msg _ Hf Hc).
Qed.

Lemma registered_keyword_resolves_witness :
  _parseCommand bot0 (message0 "<@B> help  me out") =
    Some {| cmd_method := VStr "_help"; cmd_description := VStr "Displays the help message";
            args := [""; "me"; "out"] |}.
Proof.
  apply (registered_keyword_resolves bot0 (message0 "<@B> help  me out") "help"
           {| method := "_help"; description := "Displays the help message" |}
           [""; "me"; "out"]); reflexivity.
Defined.

(** When the handler of an event with a text throws. *)
Lemma on_message_throws (bot : Bot) (msg : Message) (e : error) :
  (result (on_message bot msg) = inl e <->
     e = TypeError
     /\ exists t1 rest,
          split (msg_text msg) = mention bot :: t1 :: rest
          /\ includes t1 Object_prototype_keys = true
          /\ no_help_flag rest)
  /\ (result (on_message bot msg) = inl e -> trace (on_message bot msg) = []).
Proof.
  assert (result (on_message bot msg) = inl e ->
          (e = TypeError
           /\ exists t1 rest,
                split (msg_text msg) = mention bot :: t1 :: rest
                /\ includes t1 Object_prototype_keys = true
                /\ no_help_flag rest)
          /\ trace (on_message bot msg) = []) as Hfwd.
  { destruct (getMsgTag_cases bot msg) as [(p & Hp)|[(Hn & rest & E)|Hf]].
    { rewrite (on_message_Params bot msg p Hp). discriminate. }
    { rewrite (on_message_self_mention bot msg rest E). discriminate. }
    destruct (_parseCommand bot msg) as [c|] eqn:Hc.
    2:{ rewrite (on_message_ingest bot msg Hf Hc). by destruct (_warrantsSave msg). }
    rewrite (on_message_command bot msg c Hf Hc).
    apply _parseCommand_Some in Hc as (t1 & rest & E & Hne & Hget & ->).
    cbn [cmd_method args]. unfold _exec. rewrite E. cbn [lookup list_lookup ToString].
    destruct (includes "-h" rest || includes "--help" rest) eqn:Hflag.
    { destruct (commands_get t1); [discriminate|discriminate|contradiction]. }
    apply orb_false_iff in Hflag.
    destruct (commands_get t1) as [c0| |] eqn:Hg; [| |contradiction].
    - destruct (commands_get_Own t1 c0 Hg) as (_ & [Hm|Hm] & _);
        cbn [property_method invoke]; rewrite Hm; discriminate.
    - cbn [property_method invoke]. intros [= <-].
      split; [|reflexivity]. split; [reflexivity|].
      exists t1, rest. split; [reflexivity|]. split; [by apply commands_get_Inherited|exact Hflag]. }
  split; [split|]; [apply Hfwd| |apply Hfwd].
  intros (-> & t1 & rest & E & Hin & Hflag).
  assert (t1 <> "") as Hne by (intros ->; discriminate Hin).
  apply commands_get_Inherited in Hin.
  assert (commands_get t1 <> Absent) as Hget by (rewrite Hin; discriminate).
  pose proof (_parseCommand_addressed bot msg t1 rest E Hne Hget) as Hc.
  pose proof (getMsgTag_command bot msg _ Hc) as Hf.
  rewrite (on_message_command bot msg _ Hf Hc). cbn [cmd_method args].
  unfold _exec. rewrite (no_help_flag_false rest Hflag), Hin. reflexivity.
Qed.

(** X10. Among message events whose text is a string or is missing, the
    listener of MESSAGE throws exactly in two cases, and then a TypeError
    before anything has been sent, removed or saved: the event has no text
    ([msg.text.split] in [getMsgTag]); or the second token of a message
    addressed to the bot is a name the command table inherits from
    Object.prototype and no help flag follows ([this[undefined]] is called). *)
Theorem MESSAGE_listener_throws_iff (bot : Bot) (ev : Event) (e : error) :
  (result (MESSAGE_listener bot ev) = inl e <->
     e = TypeError
     /\ (ev_text ev = None
         \/ exists txt t1 rest,
              ev_text ev = Some txt
              /\ split txt = mention bot :: t1 :: rest
              /\ includes t1 Object_prototype_keys = true
              /\ no_help_flag rest))
  /\ (result (MESSAGE_listener bot ev) = inl e -> trace (MESSAGE_listener bot ev) = []).
Proof.
  unfold MESSAGE_listener. destruct (ev_text ev) as [txt|] eqn:Htxt.
  - destruct (on_message_throws bot (with_text ev txt) e) as [Hiff Htr].
    split; [|exact Htr]. rewrite Hiff. cbn [msg_text with_text]. split.
    + intros (-> & t1 & rest & E & Hin & Hflag). split; [reflexivity|]. right.
      by exists txt, t1, rest.
    + intros (-> & [Hnone|(txt' & t1 & rest & [= <-] & E & Hin & Hflag)]); [discriminate|].
      split; [reflexivity|]. by exists t1, rest.
  - split; [|reflexivity]. split.
    + intros [= <-]. split; [reflexivity|by left].
    + intros (-> & _). reflexivity.
Qed.

Lemma MESSAGE_listener_throws_iff_witness :
  MESSAGE_listener bot0 (event0 None) = ([], inl TypeError)
  /\ MESSAGE_listener bot0 (event0 (Some "<@B> toString now")) = ([], inl TypeError).
Proof.
  assert (forall ev, result (MESSAGE_listener bot0 ev) = inl TypeError ->
            MESSAGE_listener bot0 ev = ([], inl TypeError)) as Hpair.
  { intros ev H. pose proof (proj2 (MESSAGE_listener_throws_iff bot0 ev TypeError) H) as Ht.
    destruct (MESSAGE_listener bot0 ev) as [tr r]. cbn in H, Ht. by subst. }
  split; apply Hpair.
  - apply (proj1 (MESSAGE_listener_throws_iff bot0 (event0 None) TypeError)).
    split; [reflexivity|by left].
  - apply (proj1 (MESSAGE_listener_throws_iff bot0 (event0 (Some "<@B> toString now"))
                    TypeError)).
    split; [reflexivity|]. right. exists "<@B> toString now", "toString", ["now"].
    by repeat split.
Defined.

(** ** The command handlers *)

Lemma is_substring_join (sep s : string) (l : list string) :
  In s l -> is_substring s (join sep l).
Proof.
  induction l as [|a l IH]; [intros []|].
  intros [->|Hin].
  - destruct l as [|b l].
    + exists "", "". simpl. by rewrite append_empty_r.
    + exists "", (sep +:+ join sep (b :: l)). reflexivity.
  - destruct l as [|b l]; [destruct Hin|].
    destruct (IH Hin) as (pre & post & Heq).
    exists (a +:+ sep +:+ pre), post.
    change (join sep (a :: b :: l)) with (a +:+ sep +:+ join sep (b :: l)).
    rewrite Heq. by rewrite !append_assoc.
Qed.

(** X11. [purge] takes no argument into account: whatever follows the
    keyword, short of a help flag, the handler asks the collection to remove
    the messages of the message's author, and once the removal has resolved
    the closure sends the confirmation, mentioning the author, to the
    message's channel. *)
Theorem purge_removes_the_authors_messages
    (markov : string -> value -> error + string) (bot : Bot) (msg : Message)
    (rest : list string) :
  split (msg_text msg) = mention bot :: "purge" :: rest ->
  no_help_flag rest ->
  on_message bot msg = ([Message_remove (msg_user msg) (purge_then msg)], inr tt)
  /\ run_callback markov bot (purge_then msg) Removed =
       ([sendMessage (VStr ("<@" +:+ msg_user msg +:+ "> Your messages have been purged!"))
           (msg_channel msg)], inr VUndefined).
Proof.
  intros E Hflag. split; [|reflexivity].
  assert (commands_get "purge" <> Absent) as Hget by discriminate.
  pose proof (_parseCommand_addressed bot msg "purge" rest E ltac:(discriminate) Hget) as Hc.
  pose proof (getMsgTag_command bot msg _ Hc) as Hf.
  rewrite (on_message_command bot msg _ Hf Hc). cbn [cmd_method args].
  unfold _exec. by rewrite (no_help_flag_false rest Hflag).
Qed.

Lemma purge_removes_the_authors_messages_witness :
  on_message bot0 (message0 "<@B> purge <@U2> everything") =
    ([Message_remove "U1" (purge_then (message0 "<@B> purge <@U2> everything"))], inr tt).
Proof.
  apply (purge_removes_the_authors_messages markov0 bot0
           (message0 "<@B> purge <@U2> everything") ["<@U2>"; "everything"]);
    [reflexivity|by split].
Defined.

(** X12. [help] without a help flag sends one message to the message's
    channel; its text holds the heading and, for every entry of the command
    table, the keyword between backquotes followed by a colon and the entry's
    description. *)
Theorem help_lists_every_command (bot : Bot) (msg : Message) (rest : list string) :
  split (msg_text msg) = mention bot :: "help" :: rest ->
  no_help_flag rest ->
  exists text,
    on_message bot msg = ([sendMessage (VStr text) (msg_channel msg)], inr tt)
    /\ is_substring ("Here is a list of the commands I know: " +:+ CR) text
    /\ forall k c, In (k, c) _commands ->
         is_substring ("`" +:+ k +:+ "`: " +:+ description c) text.
Proof.
  intros E Hflag.
  assert (commands_get "help" <> Absent) as Hget by discriminate.
  pose proof (_parseCommand_addressed bot msg "help" rest E ltac:(discriminate) Hget) as Hc.
  pose proof (getMsgTag_command bot msg _ Hc) as Hf.
  eexists. split; [|split].
  - rewrite (on_message_command bot msg _ Hf Hc). cbn [cmd_method args].
    unfold _exec. rewrite (no_help_flag_false rest Hflag). reflexivity.
  - apply is_substring_join. left. reflexivity.
  - intros k c Hin. apply is_substring_join. right.
    apply (in_map (fun '(name, c) => "`" +:+ name +:+ "`: " +:+ description c)) in Hin.
    exact Hin.
Qed.

Lemma help_lists_every_command_witness :
  exists text,
    on_message bot0 (message0 "<@B> help") = ([sendMessage (VStr text) "C1"], inr tt)
    /\ is_substring "`purge`: Purges all of a user's messages from the database" text.
Proof.
  destruct (help_lists_every_command bot0 (message0 "<@B> help") [] eq_refl
              (conj eq_refl eq_refl)) as (text & Hon & _ & Hall).
  exists text. split; [exact Hon|].
  apply (Hall "purge" {| method := "_purge";
                         description := "Purges all of a user's messages from the database" |}).
  left. reflexivity.
Defined.

(** ** The handler as a whole *)

Lemma _exec_trace (methodName : value) (msg : Message) (arr : list string) :
  (length (trace (_exec methodName msg arr)) <= 1)%nat
  /\ forall e, e ∈ trace (_exec methodName msg arr) ->
       is_MarkovChain_generate e = false
       /\ forall usr lim k, e <> Message_find usr lim k.
Proof.
  unfold _exec. destruct (includes "-h" arr || includes "--help" arr).
  - destruct (commands_get _); simpl; (split; [lia|]); intros e He; in_trace He;
      subst e; by split.
  - unfold invoke. destruct methodName; simpl; try (split; [lia|]; intros e He; in_trace He).
    destruct (String.eqb s "_purge"); [|destruct (String.eqb s "_help")]; simpl;
      (split; [lia|]); intros e He; in_trace He; subst e; by split.
Qed.

(** X13. Handling a message makes at most one call on a collaborator, and
    never the generator's: text is generated only later, in the closure of the
    find. A find is issued only for a request that [getMsgTag] returned. *)
Theorem handler_makes_at_most_one_call (bot : Bot) (msg : Message) :
  (length (trace (on_message bot msg)) <= 1)%nat
  /\ (forall e, e ∈ trace (on_message bot msg) -> is_MarkovChain_generate e = false)
  /\ (forall usr lim k, Message_find usr lim k ∈ trace (on_message bot msg) ->
        exists p, result (getMsgTag bot msg) = inr (Params p)
                  /\ usr = user p /\ lim = limit p /\ k = generate_then p).
Proof.
  destruct (getMsgTag_cases bot msg) as [(p & Hp)|[(Hn & rest & E)|Hf]].
  - rewrite (on_message_Params bot msg p Hp), Hp. simpl.
    split; [lia|]. split.
    + intros e He. in_trace He. by subst e.
    + intros usr lim k He. in_trace He. injection He as <- <- <-. by exists p.
  - rewrite (on_message_self_mention bot msg rest E). simpl.
    split; [lia|]. split; [intros e He|intros usr lim k He]; in_trace He. by subst e.
  - destruct (_parseCommand bot msg) as [c|] eqn:Hc.
    + rewrite (on_message_command bot msg c Hf Hc).
      destruct (_exec_trace (cmd_method c) msg (args c)) as [Hlen Hall].
      split; [exact Hlen|]. split.
      * intros e He. by apply Hall.
      * intros usr lim k He. apply Hall in He as [_ He]. by destruct (He usr lim k).
    + rewrite (on_message_ingest bot msg Hf Hc).
      destruct (_warrantsSave msg); simpl; (split; [lia|]);
        (split; [intros e He|intros usr lim k He]); in_trace He. by subst e.
Qed.

(** ** The closure of the find *)

(** X14. When the generator throws, the closure of [generate] throws the
    same error after that one generator call: nothing is sent, neither a
    reply nor the denial. *)
Theorem generator_failure_sends_nothing
    (markov : string -> value -> error + string) (bot : Bot) (params : Request)
    (messages : list Document) (e : error) :
  messages <> [] ->
  markov (join " " (map doc_text messages)) (get (config bot) "limit") = inl e ->
  run_callback markov bot (generate_then params) (Found messages) =
    ([MarkovChain_generate (join " " (map doc_text messages)) (get (config bot) "limit")],
     inl e)
  /\ forall text chan,
       sendMessage text chan ∉ trace (pipeline markov bot params messages).
Proof.
  intros Hne He.
  pose proof (generate_resolved_nonempty markov bot params messages Hne) as Hg.
  rewrite He in Hg. split; [exact Hg|].
  intros text chan Hin. rewrite pipeline_unfold, Hg in Hin. in_trace Hin.
Qed.

Lemma generator_failure_sends_nothing_witness :
  run_callback (fun _ _ => inl (Error (VStr "no chain"))) bot0 (generate_then request0)
    (Found [doc0 "a"; doc0 "b"]) =
    ([MarkovChain_generate "a b" (VNum 150)], inl (Error (VStr "no chain"))).
Proof.
  apply (generator_failure_sends_nothing (fun _ _ => inl (Error (VStr "no chain"))) bot0
           request0 [doc0 "a"; doc0 "b"] (Error (VStr "no chain")));
    [discriminate|reflexivity].
Defined.

(** *** The seed *)

Lemma split_cons (c : ascii) (s : string) :
  split (String c s) =
    if (code c =? 32)%N then "" :: split s
    else match split s with
         | t :: ts => String c t :: ts
         | [] => [String c ""]
         end.
Proof. reflexivity. Qed.

Lemma split_app_space (a b : string) :
  split (a +:+ " " +:+ b) = (split a ++ split b)%list.
Proof.
  induction a as [|c a IH]; [reflexivity|].
  rewrite append_cons, !split_cons, IH.
  destruct (code c =? 32)%N; [reflexivity|].
  destruct (split a) as [|t ts] eqn:E; [by apply split_nonempty in E|reflexivity].
Qed.

Lemma split_join (l : list string) :
  l <> [] -> split (join " " l) = concat (map split l).
Proof.
  induction l as [|a l IH]; [done|]. intros _.
  destruct l as [|b l].
  - simpl. by rewrite app_nil_r.
  - change (join " " (a :: b :: l)) with (a +:+ " " +:+ join " " (b :: l)).
    rewrite split_app_space, IH by discriminate. reflexivity.
Qed.

Lemma join_cons_nonempty (c : ascii) (t : string) (ts : list string) :
  join " " (String c t :: ts) = String c (join " " (t :: ts)).
Proof. by destruct ts. Qed.

Lemma join_split (s : string) : join " " (split s) = s.
Proof.
  induction s as [|c s IH]; [reflexivity|]. rewrite split_cons.
  destruct (split s) as [|t ts] eqn:E; [by apply split_nonempty in E|].
  destruct (N.eqb_spec (code c) 32) as [Hc|_].
  - change (join " " ("" :: t :: ts)) with (String " " (join " " (t :: ts))).
    rewrite IH. f_equal. unfold code in Hc.
    rewrite <- (ascii_N_embedding c), Hc. reflexivity.
  - by rewrite join_cons_nonempty, IH.
Qed.

(** X15. The seed given to the generator splits on spaces into exactly the
    tokens of the messages found, message after message in the order of the
    result, and joining those tokens gives the seed back. *)
Theorem seed_holds_the_tokens_of_the_messages
    (markov : string -> value -> error + string) (bot : Bot) (params : Request)
    (messages : list Document) :
  messages <> [] ->
  exists seed tl,
    trace (pipeline markov bot params messages) =
      Message_find (user params) (limit params) (generate_then params)
        :: MarkovChain_generate seed (get (config bot) "limit") :: tl
    /\ split seed = concat (map (fun d => split (doc_text d)) messages)
    /\ join " " (split seed) = seed.
Proof.
  intros Hne. exists (join " " (map doc_text messages)).
  rewrite pipeline_unfold, (generate_resolved_nonempty markov bot params messages Hne).
  assert (exists tl, trace (match markov (join " " (map doc_text messages))
                                     (get (config bot) "limit") with
           | inl e => ([MarkovChain_generate (join " " (map doc_text messages))
                          (get (config bot) "limit")], inl e)
           | inr chain =>
               ([MarkovChain_generate (join " " (map doc_text messages))
                   (get (config bot) "limit");
                 sendMessage (VStr ("<@" +:+ user params +:+ "> says: " +:+ chain))
                   (channel params)], inr VUndefined)
           end : M value) = MarkovChain_generate (join " " (map doc_text messages))
                              (get (config bot) "limit") :: tl) as [tl Htl].
  { destruct (markov _ _); simpl; eauto. }
  exists tl. split; [simpl; by rewrite Htl|]. split; [|apply join_split].
  rewrite split_join by (destruct messages; [contradiction|discriminate]).
  by rewrite map_map.
Qed.

Lemma seed_holds_the_tokens_of_the_messages_witness :
  exists seed tl,
    trace (pipeline markov0 bot0 request0 [doc0 "so it  goes"; doc0 ""; doc0 "ok"]) =
      Message_find "U1" (VNum 10) (generate_then request0)
        :: MarkovChain_generate seed (VNum 150) :: tl
    /\ split seed = ["so"; "it"; ""; "goes"; ""; "ok"].
Proof.
  destruct (seed_holds_the_tokens_of_the_messages markov0 bot0 request0
              [doc0 "so it  goes"; doc0 ""; doc0 "ok"] ltac:(discriminate))
    as (seed & tl & Htr & Hsplit & _).
  exists seed, tl. split; [exact Htr|exact Hsplit].
Defined.

(** ** The two handlers *)

(** X16. The handler of [src/Bot/index.js] and the handler with commands do
    the same on every message that resolves to no command. A message that
    resolves to a command is, for the older handler, ordinary chat: it goes to
    the ingestion filter. *)
Theorem handlers_differ_only_on_commands (bot : Bot) (msg : Message) :
  (_parseCommand bot msg = None -> BasicBot.on_message bot msg = on_message bot msg)
  /\ (forall c, _parseCommand bot msg = Some c ->
        BasicBot.on_message bot msg =
          if _warrantsSave msg then saveMessage msg else ([], inr tt)).
Proof.
  split.
  - intros Hc. destruct (getMsgTag_cases bot msg) as [(p & Hp)|[(Hn & rest & E)|Hf]].
    + rewrite (on_message_Params bot msg p Hp).
      unfold BasicBot.on_message. rewrite BasicBot_getMsgTag_eq, Hp. reflexivity.
    + rewrite (on_message_self_mention bot msg rest E).
      unfold BasicBot.on_message. rewrite BasicBot_getMsgTag_eq, Hn. reflexivity.
    + by rewrite (on_message_ingest bot msg Hf Hc), (BasicBot_on_message_False bot msg Hf).
  - intros c Hc. apply BasicBot_on_message_False. by apply (getMsgTag_command bot msg c).
Qed.

Lemma handlers_differ_only_on_commands_witness :
  BasicBot.on_message bot0 (message0 "<@B> me 3") = on_message bot0 (message0 "<@B> me 3")
  /\ BasicBot.on_message bot0 (message0 "<@B> purge") =
       ([Message_save (new_Message (message0 "<@B> purge")) save_callback], inr tt).
Proof.
  split.
  - apply (proj1 (handlers_differ_only_on_commands bot0 (message0 "<@B> me 3"))).
    reflexivity.
  - apply (proj2 (handlers_differ_only_on_commands bot0 (message0 "<@B> purge"))
             {| cmd_method := VStr "_purge";
                cmd_description := VStr "Purges all of a user's messages from the database";
                args := [] |}).
    reflexivity.
Defined.

(** ** Before and after authentication *)

Lemma append_gt_inj (a b : string) : a +:+ ">" = b +:+ ">" -> a = b.
Proof.
  revert b. induction a as [|x a IH]; intros [|y b]; rewrite ?append_cons.
  - done.
  - change ("" +:+ ">") with ">". intros [= _ H]. by destruct b.
  - change ("" +:+ ">") with ">". intros [= _ H]. by destruct a.
  - intros [= -> H]. f_equal. by apply IH.
Qed.

Lemma getMsgTag_me_form (bot : Bot) (msg : Message) (rest : list string) :
  split (msg_text msg) = mention bot :: "me" :: rest ->
  getMsgTag bot msg =
    ([], inr (Params {| user := msg_user msg; channel := msg_channel msg;
                        limit := parseInt_or (rest !! 0%nat) (get (config bot) "limit") |})).
Proof.
  intros E. unfold getMsgTag.
  rewrite (_isCalled_addressed bot msg "me" rest E) by discriminate.
  rewrite E. reflexivity.
Qed.

(** X17. Until the client has authenticated, [this.id] is undefined and the
    bot takes the literal "<@undefined>" for its own mention: a message that
    addresses it is parsed as a request. Once [AUTHENTICATED] has set an id,
    the same message addresses no one; the configuration is untouched. *)
Theorem unauthenticated_bot_answers_to_undefined (bot : Bot) (msg : Message)
    (rest : list string) (self_name self_id : string) :
  id bot = None ->
  self_id <> "undefined" ->
  split (msg_text msg) = "<@undefined>" :: "me" :: rest ->
  getMsgTag bot msg =
    ([], inr (Params {| user := msg_user msg; channel := msg_channel msg;
                        limit := parseInt_or (rest !! 0%nat) (get (config bot) "limit") |}))
  /\ getMsgTag (on_authenticated self_name self_id bot) msg = ([], inr False_)
  /\ config (on_authenticated self_name self_id bot) = config bot.
Proof.
  intros Hid Hne E.
  assert (mention bot = "<@undefined>") as Hm by (unfold mention; by rewrite Hid).
  split; [|split; [|reflexivity]].
  - apply getMsgTag_me_form. by rewrite Hm.
  - apply on_message_not_called, _isCalled_None. left. rewrite E.
    cbn [lookup list_lookup]. intros [= H]. apply Hne.
    change ("undefined" +:+ ">" = self_id +:+ ">") in H.
    symmetry. by apply append_gt_inj.
Qed.

Lemma unauthenticated_bot_answers_to_undefined_witness :
  getMsgTag {| config := config_default_js VNull; name := None; id := None |}
    (message0 "<@undefined> me") =
    ([], inr (Params {| user := "U1"; channel := "C1"; limit := VNum 150 |})).
Proof.
  apply (unauthenticated_bot_answers_to_undefined
           {| config := config_default_js VNull; name := None; id := None |}
           (message0 "<@undefined> me") [] "markov" "B");
    [reflexivity|discriminate|reflexivity].
Defined.

(** ** Construction *)

Lemma new_Bot_result (cfg : object) (h : heap) :
  snd (new_Bot cfg h) =
    match check_config cfg with
    | Some e => inl e
    | None => inr {| config_ref := defaultConfig |}
    end.
Proof. unfold new_Bot, Object_assign. by destruct (check_config cfg). Qed.

Lemma check_config_token (cfg : object) :
  check_config cfg = None ->
  exists v, cfg !! "token" = Some v /\ truthy v = true.
Proof.
  unfold check_config, get.
  destruct (cfg !! "token") as [v|]; simpl; [|discriminate].
  destruct (truthy v) eqn:Ht; simpl; [|discriminate]. intros _. by exists v.
Qed.

(** A configuration that fails a check is refused by the whole constructor
    with the same error; no model is compiled. *)
Lemma Bot_constructor_refused (cfg : object) (p : process) (e : error) :
  check_config cfg = Some e ->
  Bot_constructor cfg p =
    ({| objects := fst (new_Bot cfg (objects p)); models := models p |}, inl e).
Proof.
  intros Hc. unfold Bot_constructor, construct.
  rewrite (surjective_pairing (new_Bot cfg (objects p))), new_Bot_snd, Hc. reflexivity.
Qed.

(** X18. The constructor checks its argument, not the merged configuration,
    and it checks after merging: a configuration without a token is refused
    with the token error although the shared default object holds the token
    of a bot built before, and every field of the refused configuration has
    nonetheless been written into the shared default. *)
Theorem new_Bot_checks_the_argument_after_merging (h : heap) (c1 c2 : object) :
  check_config c1 = None ->
  c2 !! "token" = None ->
  let h1 := fst (new_Bot c1 h) in
  let h2 := fst (new_Bot c2 h1) in
  snd (new_Bot c2 h1) = inl (missing "token")
  /\ truthy (get (deref h2 defaultConfig) "token") = true
  /\ (forall f v, c2 !! f = Some v -> deref h2 defaultConfig !! f = Some v).
Proof.
  intros H1 H2 h1 h2. split; [|split].
  - rewrite new_Bot_result. unfold check_config, get. by rewrite H2.
  - destruct (check_config_token c1 H1) as (v & Hv & Ht).
    subst h2 h1. rewrite !deref_new_Bot. unfold get.
    rewrite lookup_union_r by exact H2.
    by rewrite (lookup_union_Some_l _ _ _ _ Hv).
  - intros f v Hf. subst h2. rewrite deref_new_Bot. by apply lookup_union_Some_l.
Qed.

Lemma new_Bot_checks_the_argument_after_merging_witness :
  snd (new_Bot (<["limit" := VNum 7]> ∅) (fst (new_Bot team1 (initial_heap VNull))))
    = inl (missing "token")
  /\ deref (fst (new_Bot (<["limit" := VNum 7]> ∅) (fst (new_Bot team1 (initial_heap VNull)))))
       defaultConfig !! "limit" = Some (VNum 7).
Proof.
  pose proof (new_Bot_checks_the_argument_after_merging (initial_heap VNull) team1
                (<["limit" := VNum 7]> ∅) eq_refl eq_refl) as (Herr & _ & Hw).
  split; [exact Herr|]. apply Hw. reflexivity.
Defined.

Lemma BasicBot_new_Bot_result (cfg : object) (h : heap) :
  snd (BasicBot.new_Bot cfg h) =
    match check_config cfg with
    | Some e => inl e
    | None => inr {| config_ref := fresh (dom h) |}
    end.
Proof. unfold BasicBot.new_Bot, Object_assign. by destruct (check_config cfg). Qed.

Lemma forEach_new_error_prefix (ctor : object -> process -> process * (error + BotObject))
    (teams post : list object) (p : process) (e : error) :
  snd (forEach_new ctor teams p) = inl e ->
  forEach_new ctor (teams ++ post) p = forEach_new ctor teams p.
Proof.
  revert p. induction teams as [|c l IH]; intros p; [discriminate|].
  cbn [app forEach_new]. destruct (ctor c p) as [p' [e'|b]]; [reflexivity|].
  destruct (forEach_new ctor l p') as [p'' [e''|bs]] eqn:El; [|discriminate].
  cbn [snd]. intros [= ->]. rewrite (IH p') by (by rewrite El). by rewrite El.
Qed.

Lemma forEach_construct_two (new_bot : object -> heap -> heap * (error + BotObject))
    (c1 c2 : object) (post : list object) (p : process) :
  exists e, snd (forEach_new (construct new_bot) (c1 :: c2 :: post) p) = inl e
            /\ (forall b1, snd (construct new_bot c1 p) = inr b1 ->
                (exists b, snd (new_bot c2 (objects (fst (construct new_bot c1 p)))) = inr b) ->
                e = OverwriteModelError "Message").
Proof.
  cbn [forEach_new].
  destruct (construct new_bot c1 p) as [p1 [e1|b1]] eqn:E1.
  { exists e1. split; [reflexivity|]. intros b1 Hb1. discriminate Hb1. }
  destruct (construct_after_a_bot new_bot c1 c2 p b1) as (e & He & Hover).
  { by rewrite E1. }
  rewrite E1 in He, Hover. cbn [fst] in He, Hover.
  destruct (construct new_bot c2 p1) as [p2 [e2|b2]]; [|discriminate He].
  exists e2. split; [reflexivity|]. intros b Hb Hex. injection He as ->. by apply Hover.
Qed.

(** X19. The loop of [index.js] does not outlive a constructor that throws:
    once a run has ended in an error, the configurations that follow are never
    looked at. And it never gets past its second team: after a constructor has
    returned a bot the next one throws, because [_db] compiles the model of
    the collection again; for two configurations that pass the checks, in a
    process where the model is not compiled yet, the error is mongoose's
    OverwriteModelError. This holds with either constructor. *)
Theorem start_teams_never_passes_the_second_team :
  ((forall teams post p e, snd (start_teams teams p) = inl e ->
      start_teams (teams ++ post) p = start_teams teams p)
   /\ (forall c1 c2 post p, exists e, snd (start_teams (c1 :: c2 :: post) p) = inl e)
   /\ (forall c1 c2 post p,
         "Message" ∉ models p -> check_config c1 = None -> check_config c2 = None ->
         snd (start_teams (c1 :: c2 :: post) p) = inl (OverwriteModelError "Message")))
  /\ ((forall teams post p e, snd (BasicBot.start_teams teams p) = inl e ->
         BasicBot.start_teams (teams ++ post) p = BasicBot.start_teams teams p)
      /\ (forall c1 c2 post p,
            exists e, snd (BasicBot.start_teams (c1 :: c2 :: post) p) = inl e)
      /\ (forall c1 c2 post p,
            "Message" ∉ models p -> check_config c1 = None -> check_config c2 = None ->
            snd (BasicBot.start_teams (c1 :: c2 :: post) p)
              = inl (OverwriteModelError "Message"))).
Proof.
  split; (split; [|split]).
  - intros teams post p e. apply forEach_new_error_prefix.
  - intros c1 c2 post p.
    destruct (forEach_construct_two new_Bot c1 c2 post p) as (e & He & _). by exists e.
  - intros c1 c2 post p Hm H1 H2.
    destruct (forEach_construct_two new_Bot c1 c2 post p) as (e & He & Hover).
    unfold start_teams, Bot_constructor. rewrite He. f_equal.
    apply (Hover {| config_ref := defaultConfig |}).
    + rewrite construct_result, new_Bot_snd, H1. by rewrite bool_decide_eq_false_2.
    + rewrite new_Bot_snd, H2. by eexists.
  - intros teams post p e. apply forEach_new_error_prefix.
  - intros c1 c2 post p.
    destruct (forEach_construct_two BasicBot.new_Bot c1 c2 post p) as (e & He & _).
    by exists e.
  - intros c1 c2 post p Hm H1 H2.
    destruct (forEach_construct_two BasicBot.new_Bot c1 c2 post p) as (e & He & Hover).
    unfold BasicBot.start_teams, BasicBot.Bot_constructor. rewrite He. f_equal.
    apply (Hover {| config_ref := fresh (dom (objects p)) |}).
    + rewrite construct_result, BasicBot_new_Bot_result, H1. by rewrite bool_decide_eq_false_2.
    + rewrite BasicBot_new_Bot_result, H2. by eexists.
Qed.

Lemma start_teams_never_passes_the_second_team_witness :
  snd (start_teams [team1; team2; team0] (initial_process VNull))
    = inl (OverwriteModelError "Message")
  /\ snd (BasicBot.start_teams [team1; team2; team0] (initial_process VNull))
    = inl (OverwriteModelError "Message")
  /\ start_teams ([team0; team1] ++ [team2]) (initial_process VNull)
     = start_teams [team0; team1] (initial_process VNull).
Proof.
  assert ("Message" ∉ models (initial_process VNull)) as Hm.
  { cbn [models initial_process]. set_solver. }
  split; [|split].
  - apply (proj2 (proj2 (proj1 start_teams_never_passes_the_second_team))
             team1 team2 [team0] (initial_process VNull) Hm); reflexivity.
  - apply (proj2 (proj2 (proj2 start_teams_never_passes_the_second_team))
             team1 team2 [team0] (initial_process VNull) Hm); reflexivity.
  - apply (proj1 (proj1 start_teams_never_passes_the_second_team)
             [team0; team1] [team2] (initial_process VNull) (missing "token")).
    unfold start_teams, Bot_constructor. cbn [forEach_new].
    by rewrite (surjective_pairing (construct new_Bot team0 _)), construct_result, new_Bot_snd.
Defined.

(** X20. The constructor of [src/Bot/index.js] shares nothing: the
    configuration of the bot it returns is a new object, no object that
    existed is changed, the limit is the argument's when it has one and 150
    otherwise, and a construction that follows leaves that configuration as it
    is. *)
Theorem BasicBot_new_Bot_is_independent (cfg : object) (h : heap) (b : BotObject) :
  snd (BasicBot.new_Bot cfg h) = inr b ->
  let h' := fst (BasicBot.new_Bot cfg h) in
  h !! config_ref b = None
  /\ (forall l o, h !! l = Some o -> h' !! l = Some o)
  /\ get (deref h' (config_ref b)) "limit" = default (VNum 150) (cfg !! "limit")
  /\ (forall f v, cfg !! f = Some v -> deref h' (config_ref b) !! f = Some v)
  /\ (forall cfg2, deref (fst (BasicBot.new_Bot cfg2 h')) (config_ref b)
                   = deref h' (config_ref b)).
Proof.
  rewrite BasicBot_new_Bot_result. destruct (check_config cfg) eqn:Hc; [discriminate|].
  intros [= <-] h'. cbn [config_ref].
  assert (h !! fresh (dom h) = None) as Hfresh by (apply not_elem_of_dom, is_fresh).
  assert (forall c k, fst (BasicBot.new_Bot c k) =
            <[fresh (dom k) := c ∪ <["limit" := VNum 150]> ∅]> k) as Hheap.
  { intros c k. unfold BasicBot.new_Bot, Object_assign.
    destruct (check_config c); cbn [fst]; unfold deref;
      by rewrite lookup_insert_eq, insert_insert_eq. }
  assert (deref h' (fresh (dom h)) = cfg ∪ <["limit" := VNum 150]> ∅) as Hd.
  { subst h'. rewrite Hheap. unfold deref. by rewrite lookup_insert_eq. }
  split; [exact Hfresh|]. split; [|split; [|split]].
  - intros l o Hl. subst h'. rewrite Hheap. rewrite lookup_insert_ne; [exact Hl|].
    intros <-. rewrite Hfresh in Hl. discriminate Hl.
  - rewrite Hd. unfold get. destruct (cfg !! "limit") as [v|] eqn:Hl.
    + by rewrite (lookup_union_Some_l _ _ _ _ Hl).
    + rewrite lookup_union_r by exact Hl. by rewrite lookup_insert_eq.
  - intros f v Hf. rewrite Hd. by apply lookup_union_Some_l.
  - intros cfg2. rewrite Hheap. unfold deref at 1.
    rewrite lookup_insert_ne; [reflexivity|].
    intros Heq. assert (h' !! fresh (dom h') = None) as Hn by (apply not_elem_of_dom, is_fresh).
    rewrite Heq in Hn. subst h'. rewrite Hheap, lookup_insert_eq in Hn. discriminate Hn.
Qed.

Lemma BasicBot_new_Bot_is_independent_witness :
  get (deref (fst (BasicBot.new_Bot team2 (fst (BasicBot.new_Bot team1 (initial_heap VNull)))))
         (fresh (dom (fst (BasicBot.new_Bot team1 (initial_heap VNull)))))) "limit"
    = VNum 150.
Proof.
  apply (BasicBot_new_Bot_is_independent team2 (fst (BasicBot.new_Bot team1 (initial_heap VNull)))
           {| config_ref := fresh (dom (fst (BasicBot.new_Bot team1 (initial_heap VNull)))) |}).
  reflexivity.
Defined.

(** ** An inherited key with a help flag *)

(** X21. When the second token of a message addressed to the bot is a name
    the command table inherits from Object.prototype and a help flag follows,
    the handler does not throw: it sends the value [undefined], the
    [description] of the inherited property, to the message's channel. *)
Theorem inherited_key_help_sends_undefined (bot : Bot) (msg : Message)
    (t1 : string) (rest : list string) :
  split (msg_text msg) = mention bot :: t1 :: rest ->
  includes t1 Object_prototype_keys = true ->
  In "-h" rest \/ In "--help" rest ->
  on_message bot msg = ([sendMessage VUndefined (msg_channel msg)], inr tt).
Proof.
  intros E Hin Hflag.
  assert (t1 <> "") as Hne by (intros ->; discriminate Hin).
  apply commands_get_Inherited in Hin.
  assert (commands_get t1 <> Absent) as Hget by (rewrite Hin; discriminate).
  pose proof (_parseCommand_addressed bot msg t1 rest E Hne Hget) as Hc.
  pose proof (getMsgTag_command bot msg _ Hc) as Hf.
  rewrite (on_message_command bot msg _ Hf Hc). cbn [cmd_method args].
  unfold _exec.
  assert (includes "-h" rest || includes "--help" rest = true) as ->.
  { apply orb_true_iff. destruct Hflag as [H|H]; [left|right]; by apply includes_In. }
  rewrite E. cbn [lookup list_lookup ToString]. by rewrite Hin.
Qed.

Lemma inherited_key_help_sends_undefined_witness :
  on_message bot0 (message0 "<@B> valueOf --help") = ([sendMessage VUndefined "C1"], inr tt).
Proof.
  apply (inherited_key_help_sends_undefined bot0 (message0 "<@B> valueOf --help")
           "valueOf" ["--help"]); [reflexivity|reflexivity|].
  right. left. reflexivity.
Defined.
